(** * grobber: the content graph (Show, Episode, Stream), the race selector
      and the search entry point, embedded from [grobber/models.py],
      [grobber/query.py] and [grobber/streams/vidstreaming.py]. *)

From Stdlib Require Import ZArith QArith Lia Ascii String.
From stdpp Require Import gmap strings list fin_maps fin_sets pretty sorting.

Local Open Scope string_scope.
Local Open Scope list_scope.
Local Open Scope Z_scope.

(** ** Exceptions and fallible results *)

(** The exception classes the embedded code raises or catches.
    [OtherException] stands for any further subclass of [Exception];
    [BaseExceptionOnly] for the classes that derive from [BaseException]
    but not from [Exception] (KeyboardInterrupt, SystemExit, ...). *)
Inductive exn : Type :=
| CancelledError
| KeyError
| EpisodeNotFound (index count : Z)
| StreamNotFound
| InvalidRequest (msg : string)
| OtherException (name : string)
| BaseExceptionOnly (name : string).

Inductive result (A : Type) : Type :=
| Ok (a : A)
| Raise (e : exn).
Arguments Ok {A} a.
Arguments Raise {A} e.

(** [result] is the error monad the embedding threads exceptions through. *)
Definition bind {A B : Type} (r : result A) (k : A -> result B) : result B :=
  match r with
  | Ok a => k a
  | Raise e => Raise e
  end.

Notation "'let*' x := r 'in' k" := (bind r (fun x => k))
  (at level 10, x name, r at level 100, k at level 200).

(** [isinstance(e, Exception)]. [asyncio.CancelledError] derives from
    [Exception] up to Python 3.7 and from [BaseException] since; the code
    names it in an [except] clause of its own, so the answer for it is
    never used. *)
Definition is_Exception (e : exn) : bool :=
  match e with
  | BaseExceptionOnly _ => false
  | _ => true
  end.

(** ** The race selector: [get_first] (models.py, 39-53) *)

Module Race.

(** A pending computation as [asyncio.wait] sees it: [finish] is the tick of
    the event loop at which it completes, [outcome] what [Task.result()]
    then gives (a value, or the exception it re-raises). *)
Record task (T : Type) : Type := Task {
  tid : nat;
  finish : nat;
  outcome : result T
}.
Arguments Task {T} tid finish outcome.
Arguments tid {T} t.
Arguments finish {T} t.
Arguments outcome {T} t.

(** What one call of [get_first] did: the value it returned or the exception
    that escaped, the tasks it called [cancel()] on, the tasks whose
    [result()] it read, the tasks that sat in a [done] set without being
    read, and the tasks still pending when it left. *)
Record selection (T : Type) : Type := Selection {
  value : result (option T);
  cancelled : list (task T);
  examined : list (task T);
  unread : list (task T);
  outstanding : list (task T)
}.
Arguments Selection {T} value cancelled examined unread outstanding.
Arguments value {T} s.
Arguments cancelled {T} s.
Arguments examined {T} s.
Arguments unread {T} s.
Arguments outstanding {T} s.

Definition note {T L : Type} (d : task T) (rest : list (task T))
    (r : selection T * L) : selection T * L :=
  (Selection (value r.1) (cancelled r.1) (d :: examined r.1)
             (rest ++ unread r.1) (outstanding r.1), r.2).

Section get_first.
Context {T L : Type}.

(** [asyncio.wait(coros, return_when=FIRST_COMPLETED)] in loop state [s]:
    the [done] set in the order [iter(done)] walks it, the [pending] set,
    and the loop state afterwards. *)
Variable wait : L -> list (task T) -> list (task T) * list (task T) * L.

(** [predicate(result)], awaited when it is awaitable: its truth value and
    the loop state after the await. *)
Variable predicate : T -> L -> bool * L.

Fixpoint get_first_loop (fuel : nat) (s : L) (coros : list (task T))
    : option (selection T * L) :=
  match coros with
  | [] => Some (Selection (Ok None) [] [] [] [], s)
  | _ :: _ =>
    match fuel with
    | O => None
    | S fuel' =>
      let '(done, pending, s1) := wait s coros in
      match done with
      | [] => get_first_loop fuel' s1 pending
      | d :: rest =>
        match outcome d with
        | Raise e => Some (Selection (Raise e) [] [d] rest pending, s1)
        | Ok res =>
          let '(ok, s2) := predicate res s1 in
          if ok
          then Some (Selection (Ok (Some res)) pending [d] rest pending, s2)
          else note d rest <$> get_first_loop fuel' s2 pending
        end
      end
    end
  end.

(** One iteration per pending computation is always enough, see
    [get_first_total]. *)
Definition get_first (s : L) (coros : list (task T))
    : option (selection T * L) :=
  get_first_loop (length coros) s coros.

(** What [asyncio.wait] guarantees without a timeout: on a non-empty
    collection at least one computation is done, and [done], [pending]
    split the collection. *)
Definition wait_spec : Prop :=
  forall s coros,
    coros <> [] ->
    (wait s coros).1.1 <> [] /\ (wait s coros).1.1 ++ (wait s coros).1.2 ≡ₚ coros.

End get_first.

(** The event loop with a clock: a computation is done once the clock has
    reached its [finish] tick; waiting on computations none of which is done
    advances the clock to the earliest [finish]. *)
Definition earliest {T : Type} (coros : list (task T)) : nat :=
  match coros with
  | [] => 0%nat
  | t :: ts => foldr (fun u m => Nat.min (finish u) m) (finish t) ts
  end.

Definition asyncio_wait {T : Type} (now : nat) (coros : list (task T))
    : list (task T) * list (task T) * nat :=
  let now' := Nat.max now (earliest coros) in
  (List.filter (fun t => Nat.leb (finish t) now') coros,
   List.filter (fun t => negb (Nat.leb (finish t) now')) coros,
   now').

(** The default predicate [bool]: no await, the loop state is untouched. *)
Definition sync_predicate {T : Type} (p : T -> bool) (x : T) (now : nat)
    : bool * nat := (p x, now).

End Race.

(** ** Python helpers the embedded code relies on *)

Section sorting.
Context {A K : Type}.
Variable key : A -> K.
Variable ltb : K -> K -> bool.
Variable eqb : K -> K -> bool.

(** [list.sort(key=key, reverse=True)] and [sorted(..., reverse=True)]:
    descending and stable, elements with equal keys keep their order. *)
Fixpoint insert_desc (x : A) (l : list A) : list A :=
  match l with
  | [] => [x]
  | y :: l' => if ltb (key x) (key y) then y :: insert_desc x l' else x :: l
  end.

Definition sort_desc (l : list A) : list A := foldr insert_desc [] l.

(** [x] may stand before [y] in a descending list. *)
Definition not_below (x y : A) : Prop := ltb (key x) (key y) = false.

(** [itertools.groupby(l, key)]: the maximal runs of consecutive elements
    with equal keys, each with its key. *)
Fixpoint groupby (l : list A) : list (K * list A) :=
  match l with
  | [] => []
  | x :: l' =>
    match groupby l' with
    | (k, g) :: gs =>
      if eqb (key x) k then (k, x :: g) :: gs
      else (key x, [x]) :: (k, g) :: gs
    | [] => [(key x, [x])]
    end
  end.
End sorting.

(** [s.lstrip(chars)]: drops leading characters as long as they occur in
    [chars] (a set of characters, not a prefix). *)
Fixpoint occurs (c : ascii) (chars : string) : bool :=
  match chars with
  | EmptyString => false
  | String d chars' => if Ascii.eqb c d then true else occurs c chars'
  end.

Fixpoint lstrip (chars : string) (s : string) : string :=
  match s with
  | EmptyString => EmptyString
  | String c s' => if occurs c chars then lstrip chars s' else s
  end.

(** Truth value of an [Optional[str]] and of a list. *)
Definition truthy_str (o : option string) : bool :=
  match o with
  | Some (String _ _) => true
  | _ => false
  end.

Definition truthy_list {A : Type} (l : list A) : bool :=
  match l with
  | [] => false
  | _ :: _ => true
  end.

(** Modelled from the spec: [cached_property] of grobber/decorators.py,
    which is not among the sources. Section 4.1 of the specification: the
    computation behind an attribute runs at most once per instance, its
    result is kept in the slot of the instance ([_working], [_links],
    [_stream], ...), and an error is not kept, so that the next access runs
    the computation again. *)
Definition cached_property {O A : Type} (slot : O -> option A)
    (store : A -> O -> O) (body : O -> result A * O) (self : O)
    : result A * O :=
  match slot self with
  | Some v => (Ok v, self)
  | None =>
    match body self with
    | (Ok v, self') => (Ok v, store v self')
    | (Raise e, self') => (Raise e, self')
    end
  end.

(** ** Stream (models.py, 77-187) *)

Module Stream.

(** What lies behind the request of a stream: the value of its [external]
    property, what the n-th extraction of its links yields (a list, or the
    exception the extraction raises; [CancelledError] when the awaiting task
    is cancelled during it), and the ticks one validation takes. *)
Record remote : Type := Remote {
  external : result bool;
  fetch_links : nat -> result (list string);
  latency : nat
}.

(** A stream object: class attributes ([cls], [HOST], [PRIORITY],
    [persist]), the request, and the instance attributes the code reads:
    the slots of the cached properties and [_dirty]. [fetches] counts the
    link extractions started so far. *)
Record t : Type := Make {
  sid : nat;
  cls : string;
  HOST : option string;
  PRIORITY : Z;
  persist : bool;
  _req : string;
  site : remote;
  fetches : nat;
  _links : option (list string);
  _poster : option (option string);
  _working : option bool;
  _dirty : bool
}.

Definition with_links (l : list string) (s : t) : t :=
  Make (sid s) (cls s) (HOST s) (PRIORITY s) (persist s) (_req s) (site s)
       (fetches s) (Some l) (_poster s) (_working s) (_dirty s).

Definition with_working (w : bool) (s : t) : t :=
  Make (sid s) (cls s) (HOST s) (PRIORITY s) (persist s) (_req s) (site s)
       (fetches s) (_links s) (_poster s) (Some w) (_dirty s).

Definition with_fetch (s : t) : t :=
  Make (sid s) (cls s) (HOST s) (PRIORITY s) (persist s) (_req s) (site s)
       (S (fetches s)) (_links s) (_poster s) (_working s) (_dirty s).

(** The same object while the site behind its request answers as [r]. *)
Definition with_site (r : remote) (s : t) : t :=
  Make (sid s) (cls s) (HOST s) (PRIORITY s) (persist s) (_req s) r
       (fetches s) (_links s) (_poster s) (_working s) (_dirty s).

(** Modelled from the spec: the [dirty] property a Stream inherits from
    [Expiring] (grobber/stateful.py, not among the sources): a plain flag
    of the entity. *)
Definition dirty (s : t) : bool := _dirty s.

Definition set_dirty (v : bool) (s : t) : t :=
  Make (sid s) (cls s) (HOST s) (PRIORITY s) (persist s) (_req s) (site s)
       (fetches s) (_links s) (_poster s) (_working s) v.

(** [await self.links] for a provider that declares [links] as a cached
    property (Vidstreaming, vidstreaming.py 43-51): one more extraction
    unless the slot is filled. *)
Definition links : t -> result (list string) * t :=
  cached_property _links with_links
    (fun s => (fetch_links (site s) (fetches s), with_fetch s)).

(** The body of [working] (models.py, 134-140) on the outcome of
    [await self.links]. *)
Definition working_body (awaited : result (list string)) : result bool :=
  match awaited with
  | Ok l => Ok (0 <? Z.of_nat (length l))
  | Raise CancelledError => Ok false
  | Raise e => if is_Exception e then Ok false else Raise e
  end.

Definition working : t -> result bool * t :=
  cached_property _working with_working
    (fun s => let '(r, s') := links s in (working_body r, s')).

(** [working_external_self] (models.py, 142-147); the stream it returns is
    [self], given by its identity. *)
Definition working_external_self (s : t) : result (option nat) * t :=
  match external (site s) with
  | Raise e => (Raise e, s)
  | Ok false => (Ok None, s)
  | Ok true =>
    match working s with
    | (Ok true, s') => (Ok (Some (sid s)), s')
    | (Ok false, s') => (Ok None, s')
    | (Raise e, s') => (Raise e, s')
    end
  end.

(** [can_handle] (models.py, 90-104) on the host of the request URL;
    a URL without a host has [host = None], on which [lstrip] fails. *)
Definition can_handle (cls_HOST : option string) (host : option string)
    : result bool :=
  match host with
  | None => Raise (OtherException "AttributeError")
  | Some h =>
    Ok (match cls_HOST with
        | Some H => String.eqb (lstrip "www." h) H
        | None => false
        end)
  end.

End Stream.

(** [asyncio.gather] as the code uses it: every result in order, or the
    first exception. *)
Fixpoint gather {A : Type} (rs : list (result A)) : result (list A) :=
  match rs with
  | [] => Ok []
  | r :: rs' => let* x := r in let* xs := gather rs' in Ok (x :: xs)
  end.

(** ** Episode (models.py, 190-305) *)

(** A registered provider class (a subclass of [Stream]). *)
Record StreamClass : Type := {
  cls_name : string;
  cls_HOST : option string;
  cls_PRIORITY : Z;
  cls_persist : bool
}.

(** [cls(Request(link))]: a fresh instance, no slot filled yet. *)
Definition new_stream (sid : nat) (link : string) (site : Stream.remote)
    (c : StreamClass) : Stream.t :=
  Stream.Make sid (cls_name c) (cls_HOST c) (cls_PRIORITY c) (cls_persist c)
              link site 0%nat None None None false.

Module Episode.

(** An episode object: the request, the embed references its page yields
    ([raw_streams], abstract in the class), and the instance attributes:
    [_streams] and [_stream] are the slots of the cached properties
    [streams] and [stream], the latter holding the selected stream by its
    identity. *)
Record t : Type := Make {
  _req : string;
  raw_streams : result (list string);
  _streams : option (list Stream.t);
  _stream : option (option nat);
  _dirty : bool
}.

Definition with_streams (l : list Stream.t) (e : t) : t :=
  Make (_req e) (raw_streams e) (Some l) (_stream e) (_dirty e).

Definition with_stream (w : option nat) (e : t) : t :=
  Make (_req e) (raw_streams e) (_streams e) (Some w) (_dirty e).

(** The [dirty] property (models.py, 201-208). *)
Definition dirty (e : t) : bool :=
  if _dirty e then true
  else match _streams e with
       | Some l => existsb Stream.dirty l
       | None => false
       end.

(** The [dirty] setter (models.py, 210-215). *)
Definition set_dirty (v : bool) (e : t) : t :=
  Make (_req e) (raw_streams e) (map (Stream.set_dirty v) <$> _streams e)
       (_stream e) v.

(** [stream.dirty = v] on the stream at position [j] of [_streams]. *)
Definition set_stream_dirty (j : nat) (v : bool) (e : t) : t :=
  Make (_req e) (raw_streams e)
       (alter (Stream.set_dirty v) j <$> _streams e) (_stream e) (_dirty e).

Section streams.
(** The registered providers in registration order, the host of a URL
    (yarl's [URL.host]), and what lies behind each link. *)
Variable registry : list StreamClass.
Variable host_of : string -> option string.
Variable net : string -> Stream.remote.

(** Modelled from the spec: [get_stream] of grobber/streams/__init__.py
    with [anext] of grobber/utils.py, neither among the sources. Sections
    4.6 and 6 of the specification: the reference goes to the first
    registered provider whose [can_handle] accepts its host; when no
    provider claims it there is no candidate. *)
Fixpoint get_stream (providers : list StreamClass) (link : string)
    : result (option StreamClass) :=
  match providers with
  | [] => Ok None
  | c :: cs =>
    let* ok := Stream.can_handle (cls_HOST c) (host_of link) in
    if ok then Ok (Some c) else get_stream cs link
  end.

(** The dispatch in the words of the specification, to compare
    [get_stream] with: the first registered provider whose [can_handle]
    accepts the host of the link. *)
Definition first_claiming (providers : list StreamClass) (link : string)
    : option StreamClass :=
  List.find (fun c => match Stream.can_handle (cls_HOST c) (host_of link) with
                      | Ok true => true
                      | _ => false
                      end) providers.

(** The body of [streams] (models.py, 223-231); a candidate is identified
    by the position of its link among the raw embeds. *)
Definition streams_body (e : t) : result (list Stream.t) :=
  let* links := raw_streams e in
  let* found := gather (imap (fun i link =>
                          let* c := get_stream registry link in
                          Ok (new_stream i link (net link) <$> c)) links) in
  Ok (sort_desc Stream.PRIORITY Z.ltb (omap id found)).

Definition streams : t -> result (list Stream.t) * t :=
  cached_property _streams with_streams (fun e => (streams_body e, e)).

(** [get] (models.py, 262-267). *)
Definition get (index : Z) (e : t) : result Stream.t * t :=
  match streams e with
  | (Raise x, e') => (Raise x, e')
  | (Ok l, e') =>
    if negb ((0 <=? index) && (index <? Z.of_nat (length l)))
    then (Raise StreamNotFound, e')
    else match l !! Z.to_nat index with
         | Some s => (Ok s, e')
         | None => (Raise (OtherException "IndexError"), e')
         end
  end.

Section stream.
Context {L : Type}.
Variable wait : L -> list (Race.task (option nat))
                -> list (Race.task (option nat)) * list (Race.task (option nat)) * L.
Variable clock : L -> nat.

(** The awaitable [stream.working_external_self] handed to [get_first]
    at tick [now]. *)
Definition validation (now : nat) (s : Stream.t) : Race.task (option nat) :=
  Race.Task (Stream.sid s) (now + Stream.latency (Stream.site s))
            (Stream.working_external_self s).1.

(** The predicate [bool] on an [Optional[Stream]]. *)
Definition found_one (r : option nat) (s : L) : bool * L :=
  (match r with Some _ => true | None => false end, s).

(** The loop over the priority groups (models.py, 251-258): the answer,
    what each call of [get_first] did, and the loop state afterwards. *)
Fixpoint race_groups (s : L) (groups : list (Z * list Stream.t))
    : option (result (option nat) * list (Race.selection (option nat)) * L) :=
  match groups with
  | [] => Some (Ok None, [], s)
  | (_, streams) :: rest =>
    match Race.get_first wait found_one s (map (validation (clock s)) streams) with
    | None => None
    | Some (sel, s1) =>
      match Race.value sel with
      | Raise e => Some (Raise e, [sel], s1)
      | Ok (Some (Some w)) => Some (Ok (Some w), [sel], s1)
      | Ok _ =>
        (fun r => (r.1.1, sel :: r.1.2, r.2)) <$> race_groups s1 rest
      end
    end
  end.

(** A validation that ran to its end leaves its effects on its stream. *)
Definition settle (sels : list (Race.selection (option nat)))
    (l : list Stream.t) : list Stream.t :=
  let completed :=
    map Race.tid (concat (map (fun sel => Race.examined sel ++ Race.unread sel) sels)) in
  map (fun x => if bool_decide (Stream.sid x ∈ completed)
                then (Stream.working_external_self x).2 else x) l.

(** The body of [stream] (models.py, 245-260): [all_streams] is the
    list object held in [_streams], which [sort] reorders in place. *)
Definition stream_body (s : L) (e : t)
    : option (result (option nat) * list (Race.selection (option nat)) * L * t) :=
  match streams e with
  | (Raise x, e') => Some (Raise x, [], s, e')
  | (Ok all_streams, e') =>
    let sorted := sort_desc Stream.PRIORITY Z.ltb all_streams in
    match race_groups s (groupby Stream.PRIORITY Z.eqb sorted) with
    | None => None
    | Some (r, sels, s') => Some (r, sels, s', with_streams (settle sels sorted) e')
    end
  end.

(** [stream] as a cached property: the winner, or its absence, is kept
    in [_stream]. *)
Definition stream (s : L) (e : t)
    : option (result (option nat) * list (Race.selection (option nat)) * L * t) :=
  match _stream e with
  | Some w => Some (Ok w, [], s, e)
  | None =>
    match stream_body s e with
    | None => None
    | Some (Ok w, sels, s', e') => Some (Ok w, sels, s', with_stream w e')
    | Some (Raise x, sels, s', e') => Some (Raise x, sels, s', e')
    end
  end.
End stream.
End streams.

(** Where a pending validation is suspended when [cancel()] reaches it. *)
Inductive await_point : Type := AwaitExternal | AwaitLinks.

(** The extraction a cancelled validation is suspended in raises
    [CancelledError]. *)
Definition interrupt (x : Stream.t) : Stream.t :=
  Stream.Make (Stream.sid x) (Stream.cls x) (Stream.HOST x) (Stream.PRIORITY x)
    (Stream.persist x) (Stream._req x)
    (Stream.Remote (Stream.external (Stream.site x))
       (fun n => if Nat.eqb n (Stream.fetches x) then Raise CancelledError
                 else Stream.fetch_links (Stream.site x) n)
       (Stream.latency (Stream.site x)))
    (Stream.fetches x) (Stream._links x) (Stream._poster x) (Stream._working x)
    (Stream._dirty x).

(** What the completion of a cancelled validation does to its stream:
    suspended in [external], [CancelledError] leaves
    [working_external_self] at once; suspended in the extraction of the
    links, it arrives inside [working]. *)
Definition cancelled_completion (p : await_point) (x : Stream.t) : Stream.t :=
  match p with
  | AwaitExternal => x
  | AwaitLinks => (Stream.working (interrupt x)).2
  end.

(** The completions of the validations [get_first] cancelled, arriving after
    [stream] has returned; [where_] tells where each was suspended. *)
Definition land_cancelled (where_ : nat -> await_point) (cancelled : list nat)
    (e : t) : t :=
  Make (_req e) (raw_streams e)
       (map (fun x => if bool_decide (Stream.sid x ∈ cancelled)
                      then cancelled_completion (where_ (Stream.sid x)) x
                      else x) <$> _streams e)
       (_stream e) (_dirty e).

(** [serialise_special] (models.py, 274-279). [value] is the attribute
    being serialised, the result a BSON value over the states of the
    streams; [state] is the [state] property of [Expiring]
    (grobber/stateful.py, not among the sources). *)
Inductive attribute : Type :=
| StreamList (l : list Stream.t)
| OneStream (x : Stream.t).

Inductive bson (B : Type) : Type :=
| BsonList (l : list B)
| BsonDoc (b : B)
| BsonNull.
Arguments BsonList {B} l.
Arguments BsonDoc {B} b.
Arguments BsonNull {B}.

(** The condition of the comprehension:
    [stream.persist or getattr(stream, "_links", True)
     or getattr(stream, "_poster", True)]. *)
Definition persist_worthy (x : Stream.t) : bool :=
  Stream.persist x
  || match Stream._links x with Some l => truthy_list l | None => true end
  || match Stream._poster x with Some p => truthy_str p | None => true end.

Definition serialise_special {B : Type} (state : Stream.t -> B)
    (key : string) (value : attribute) : result (bson B) :=
  if String.eqb key "streams" then
    match value with
    | StreamList l => Ok (BsonList (map state (List.filter persist_worthy l)))
    | OneStream _ => Raise (OtherException "TypeError")
    end
  else if String.eqb key "stream" then
    match value with
    | OneStream x => Ok (BsonDoc (state x))
    | StreamList _ => Raise (OtherException "AttributeError")
    end
  else Ok BsonNull.

End Episode.

(** ** Anime, the Show (models.py, 308-453) *)

Module Anime.

(** A show object: the two abstract operations of the class
    ([get_episodes], the enumeration of all episodes, and [get_episode],
    the construction of the episode at one index), the slots [_episode_count]
    and [_episodes], the flag [_dirty], and [built], the indices
    [get_episode] has been called with so far. *)
Record t : Type := Make {
  get_episodes : result (list Episode.t);
  get_episode : Z -> result Episode.t;
  _episode_count : option Z;
  _episodes : option (gmap Z Episode.t);
  _dirty : bool;
  built : list Z
}.

Definition with_episode_count (c : Z) (a : t) : t :=
  Make (get_episodes a) (get_episode a) (Some c) (_episodes a) (_dirty a) (built a).

Definition with_episodes (m : gmap Z Episode.t) (a : t) : t :=
  Make (get_episodes a) (get_episode a) (_episode_count a) (Some m) (_dirty a) (built a).

Definition with_built (calls : list Z) (a : t) : t :=
  Make (get_episodes a) (get_episode a) (_episode_count a) (_episodes a) (_dirty a)
       (built a ++ calls).

(** The [dirty] property (models.py, 341-348). *)
Definition dirty (a : t) : bool :=
  if _dirty a then true
  else match _episodes a with
       | Some m => existsb Episode.dirty (map_to_list m).*2
       | None => false
       end.

(** The [dirty] setter (models.py, 350-355). *)
Definition set_dirty (v : bool) (a : t) : t :=
  Make (get_episodes a) (get_episode a) (_episode_count a)
       ((fun m : gmap Z Episode.t => Episode.set_dirty v <$> m) <$> _episodes a) v (built a).

(** [stream.dirty = v] on the stream at position [j] of the episode at
    index [i]. *)
Definition set_stream_dirty (i : Z) (j : nat) (v : bool) (a : t) : t :=
  Make (get_episodes a) (get_episode a) (_episode_count a)
       ((fun m : gmap Z Episode.t => alter (Episode.set_stream_dirty j v) i m) <$> _episodes a)
       (_dirty a) (built a).

(** [episode_count] (models.py, 390-392), a cached property. *)
Definition episode_count : t -> result Z * t :=
  cached_property _episode_count with_episode_count
    (fun a => (let* eps := get_episodes a in Ok (Z.of_nat (length eps)), a)).

(** [dict(enumerate(eps))]. *)
Definition enumerate (eps : list Episode.t) : gmap Z Episode.t :=
  list_to_map (zip (seqZ 0 (Z.of_nat (length eps))) eps).

(** The loop of [episodes] (models.py, 400-402) over the indices still to
    visit: the dictionary is updated in place, so what was filled before an
    exception stays; the last component lists the indices [get_episode] was
    called with. *)
Fixpoint fill (construct : Z -> result Episode.t) (indices : list Z)
    (cache : gmap Z Episode.t) : result unit * gmap Z Episode.t * list Z :=
  match indices with
  | [] => (Ok tt, cache, [])
  | i :: rest =>
    match cache !! i with
    | Some _ => fill construct rest cache
    | None =>
      match construct i with
      | Raise e => (Raise e, cache, [i])
      | Ok ep =>
        let '(r, cache', calls) := fill construct rest (<[i := ep]> cache) in
        (r, cache', i :: calls)
      end
    end
  end.

(** The [episodes] property (models.py, 394-407). *)
Definition episodes (a : t) : result (gmap Z Episode.t) * t :=
  match _episodes a with
  | Some cache =>
    match episode_count a with
    | (Raise e, a1) => (Raise e, a1)
    | (Ok count, a1) =>
      if negb (Z.of_nat (size cache) =? count) then
        let '(r, cache', calls) := fill (get_episode a1) (seqZ 0 count) cache in
        let a2 := with_built calls (with_episodes cache' a1) in
        match r with
        | Ok _ => (Ok cache', a2)
        | Raise e => (Raise e, a2)
        end
      else (Ok cache, a1)
    end
  | None =>
    match get_episodes a with
    | Raise e => (Raise e, a)
    | Ok eps => (Ok (enumerate eps), with_episodes (enumerate eps) a)
    end
  end.

(** [get] (models.py, 409-417). *)
Definition get (index : Z) (a : t) : result Episode.t * t :=
  match _episodes a ≫= (fun m => m !! index) with
  | Some ep => (Ok ep, a)
  | None =>
    let not_found (a1 : t) :=
      match episode_count a1 with
      | (Ok count, a2) => (Raise (EpisodeNotFound index count), a2)
      | (Raise e, a2) => (Raise e, a2)
      end in
    match episodes a with
    | (Ok m, a1) =>
      match m !! index with
      | Some ep => (Ok ep, a1)
      | None => not_found a1
      end
    | (Raise KeyError, a1) => not_found a1
    | (Raise e, a1) => (Raise e, a1)
    end
  end.

End Anime.

(** ** The search entry point (query.py) *)

Module Query.

(** [Language] of grobber/languages.py (not among the sources): an
    enumeration of which the code names [ENGLISH]. *)
Inductive Language : Type :=
| ENGLISH
| OtherLanguage (code : string).

(** [SearchResult] (models.py, 60-66); a certainty is a finite float,
    taken as the rational it denotes. *)
Record SearchResult : Type := {
  anime : Anime.t;
  certainty : Q
}.

Record SearchFilter : Type := {
  language : Language;
  dubbed : bool
}.

(** The two query types of [AnimeQuery] with the attributes [__init__]
    sets; an optional attribute that was not given keeps the class default
    [None]. *)
Inductive AnimeQuery : Type :=
| UID (uid : string)
| Query (title : string) (lang : option Language) (dub : option bool).

Definition Qltb (a b : Q) : bool := negb (Qle_bool b a).

Section search.
(** The converters and collaborators that are not among the sources: [int]
    as [request.args.get(name, type=int)] applies it, [languages.get_lang]
    and [utils.fuzzy_bool] ([None] where they raise [ValueError] or
    [TypeError]), [sources.search_anime] as the results its iterator
    yields in order, and [preload_attrs] of the entity base class. *)
Variable int : string -> option Z.
Variable get_lang : string -> option Language.
Variable fuzzy_bool : string -> option bool.
Variable search : string -> Language -> bool -> list SearchResult.
Variable preload_attrs : Anime.t -> result unit.

(** [request.args], one value per key. *)
Variable args : gmap string string.

(** [try_build] (query.py, 31-56) for the two query types: [None] where
    [__init__] raises [KeyError] or [ValueError]. *)
Definition try_build_UID : option AnimeQuery :=
  UID <$> args !! "uid".

Definition optional {A : Type} (convert : string -> option A) (key : string)
    : option (option A) :=
  match args !! key with
  | None => Some None
  | Some v => Some <$> convert v
  end.

Definition try_build_Query : option AnimeQuery :=
  match args !! "anime" with
  | None => None
  | Some title =>
    match optional get_lang "language", optional fuzzy_bool "dubbed" with
    | Some lang, Some dub => Some (Query title lang dub)
    | _, _ => None
    end
  end.

(** [AnimeQuery.build] (query.py, 110-117). *)
Definition build : result AnimeQuery :=
  match try_build_UID with
  | Some q => Ok q
  | None =>
    match try_build_Query with
    | Some q => Ok q
    | None =>
      Raise (InvalidRequest
        ("Please specify the anime using either its uid, "
         ++ "or a title (anime), language and dubbed value"))
    end
  end.

(** [search_params] (query.py, 69-70 and 91-92). *)
Definition search_params (q : AnimeQuery) : result SearchFilter :=
  match q with
  | UID _ => Raise (InvalidRequest "Can't search using a UID")
  | Query _ lang dub =>
    Ok {| language := default ENGLISH lang; dubbed := default false dub |}
  end.

(** [_get_int_param] (query.py, 120-131); [default = None] is the
    sentinel [_DEFAULT]. *)
Definition _get_int_param (name : string) (default : option Z) : result Z :=
  match args !! name ≫= int with
  | Some value => Ok value
  | None =>
    match default with
    | None => Raise (InvalidRequest ("please specify " ++ name ++ "!"))
    | Some d => Ok d
    end
  end.

(** [search_anime] (query.py, 134-162). *)
Definition search_anime : result (list SearchResult) :=
  let* query := build in
  let* filters := search_params query in
  match args !! "anime" with
  | None | Some EmptyString => Raise (InvalidRequest "No query specified")
  | Some query =>
    let* num_results := _get_int_param "results" (Some 1) in
    if negb ((0 <? num_results) && (num_results <=? 20)) then
      Raise (InvalidRequest
        ("Can only request up to 20 results (not " ++ pretty num_results ++ ")"))
    else
      let consider_results := Z.max num_results 3 in
      let results_pool :=
        take (Z.to_nat consider_results)
             (search query (language filters) (dubbed filters)) in
      let results :=
        take (Z.to_nat num_results) (sort_desc certainty Qltb results_pool) in
      let* _ := gather (map (fun r => preload_attrs (anime r)) results) in
      Ok (take (Z.to_nat num_results) results)
  end.
End search.

(** A reader of plain decimal numerals, the inputs of [int] the examples
    use: an optional sign and ASCII digits. *)
Definition digit (c : ascii) : option Z :=
  let n := Z.of_nat (nat_of_ascii c) in
  if (48 <=? n) && (n <=? 57) then Some (n - 48) else None.

Fixpoint digits (acc : Z) (s : string) : option Z :=
  match s with
  | EmptyString => Some acc
  | String c s' =>
    match digit c with
    | Some d => digits (10 * acc + d) s'
    | None => None
    end
  end.

Definition decimal (s : string) : option Z :=
  match s with
  | EmptyString => None
  | String "-" (String c s') => Z.opp <$> digits 0 (String c s')
  | String "+" (String c s') => digits 0 (String c s')
  | _ => digits 0 s
  end.

End Query.

(** ** Further parts of the code *)

(** An event loop in which no two computations complete between two
    wake-ups of the waiting task: each call of [asyncio.wait] hands back one
    completed computation. *)
Definition one_done_at_a_time {T L : Type}
    (wait : L -> list (Race.task T) -> list (Race.task T) * list (Race.task T) * L)
    : Prop :=
  forall s coros, (length (wait s coros).1.1 <= 1)%nat.

(** The loop that completes the computations in the order they were handed
    in, one per call. *)
Definition sequential_wait {T : Type} (round : nat) (coros : list (Race.task T))
    : list (Race.task T) * list (Race.task T) * nat :=
  match coros with
  | [] => ([], [], round)
  | t :: ts => ([t], ts, S round)
  end.

(** ** Episode.sources (models.py, 233-242) *)

Module EpisodeSources.
Section sources.
Variable registry : list StreamClass.
Variable host_of : string -> option string.
Variable net : string -> Stream.remote.

(** The body of [sources]: the links of every candidate, awaited together
    and concatenated in the order of the candidates. Each awaited [links]
    leaves its effect on its stream. When several extractions fail, which
    exception leaves [asyncio.gather] depends on their timing; [gather]
    takes the one of the first failing candidate. *)
Definition sources_body (e : Episode.t) : result (list string) * Episode.t :=
  match Episode.streams registry host_of net e with
  | (Raise x, e') => (Raise x, e')
  | (Ok streams, e') =>
    let awaited := Stream.links <$> streams in
    let e'' := Episode.with_streams (snd <$> awaited) e' in
    match gather (fst <$> awaited) with
    | Ok stream_links => (Ok (concat stream_links), e'')
    | Raise x => (Raise x, e'')
    end
  end.

(** [sources] as a cached property; its slot [_sources], which the episode
    record does not carry, stands beside the episode. *)
Definition sources
    : Episode.t * option (list string)
      -> result (list string) * (Episode.t * option (list string)) :=
  cached_property snd (fun v st => (st.1, Some v))
    (fun st => let '(r, e') := sources_body st.1 in (r, (e', st.2))).
End sources.
End EpisodeSources.

(** ** Resolution of a request (query.py, 66-107 and 165-199) *)

Module Resolve.
Section resolve.
(** The converters of the request, the lookups of [sources] ([get_anime] by
    uid, [get_anime_by_title] with its optional filters; [None] when
    nothing is found), the providers and the network, the [_sources] slot of
    an episode object, and [request.args]. *)
Variable int : string -> option Z.
Variable get_lang : string -> option Query.Language.
Variable fuzzy_bool : string -> option bool.
Variable sources_get_anime : string -> option Anime.t.
Variable sources_get_anime_by_title
  : string -> option bool -> option Query.Language -> option Anime.t.
Variable registry : list StreamClass.
Variable host_of : string -> option string.
Variable net : string -> Stream.remote.
Variable sources_slot : Episode.t -> option (list string).
Variable args : gmap string string.

(** [kwargs or request.args] (query.py, 34). *)
Definition given (kwargs : gmap string string) : gmap string string :=
  if decide (kwargs = ∅) then args else kwargs.

(** [resolve] of the two query types (query.py, 72-80 and 94-107);
    [UIDUnknown] and [AnimeNotFound] are further exception classes of
    grobber/exceptions.py. *)
Definition resolve (q : Query.AnimeQuery) : result Anime.t :=
  match q with
  | Query.UID uid =>
    match uid with
    | EmptyString => Raise (InvalidRequest "")
    | _ =>
      match sources_get_anime uid with
      | Some anime => Ok anime
      | None => Raise (OtherException "UIDUnknown")
      end
    end
  | Query.Query title lang dub =>
    match sources_get_anime_by_title title dub lang with
    | Some anime => Ok anime
    | None => Raise (OtherException "AnimeNotFound")
    end
  end.

(** [get_anime] (query.py, 165-166). *)
Definition get_anime (kwargs : gmap string string) : result Anime.t :=
  let* q := Query.build get_lang fuzzy_bool (given kwargs) in resolve q.

(** [get_episode_index] (query.py, 169-170). *)
Definition get_episode_index : result Z :=
  Query._get_int_param int args "episode" None.

(** [get_episode] (query.py, 173-178): the episode, and the show as the
    call leaves it. *)
Definition get_episode (episode_index : option Z) (anime : option Anime.t)
    (kwargs : gmap string string) : result Episode.t * option Anime.t :=
  match (match episode_index with
         | Some i => Ok i
         | None => get_episode_index
         end) with
  | Raise x => (Raise x, anime)
  | Ok index =>
    match (match anime with
           | Some a => Ok a
           | None => get_anime kwargs
           end) with
    | Raise x => (Raise x, None)
    | Ok a => let '(r, a') := Anime.get index a in (r, Some a')
    end
  end.

(** [get_stream] (query.py, 181-186): the stream, and the episode as the
    call leaves it. *)
Definition get_stream (stream_index : option Z) (episode : option Episode.t)
    (kwargs : gmap string string) : result Stream.t * option Episode.t :=
  match (match stream_index with
         | Some i => Ok i
         | None => Query._get_int_param int args "stream" None
         end) with
  | Raise x => (Raise x, episode)
  | Ok index =>
    match (match episode with
           | Some e => Ok e
           | None => (get_episode None None kwargs).1
           end) with
    | Raise x => (Raise x, None)
    | Ok e =>
      let '(r, e') := Episode.get registry host_of net index e in (r, Some e')
    end
  end.

(** [get_source] (query.py, 189-199); [SourceNotFound] is a further
    exception class of grobber/exceptions.py. *)
Definition get_source (source_index : option Z) (episode : option Episode.t)
    (kwargs : gmap string string) : result string * option Episode.t :=
  match (match source_index with
         | Some i => Ok i
         | None => Query._get_int_param int args "source" None
         end) with
  | Raise x => (Raise x, episode)
  | Ok index =>
    match (match episode with
           | Some e => Ok e
           | None => (get_episode None None kwargs).1
           end) with
    | Raise x => (Raise x, None)
    | Ok e =>
      match EpisodeSources.sources registry host_of net (e, sources_slot e) with
      | (Raise x, st) => (Raise x, Some st.1)
      | (Ok srcs, st) =>
        if negb ((0 <=? index) && (index <? Z.of_nat (length srcs)))
        then (Raise (OtherException "SourceNotFound"), Some st.1)
        else match srcs !! Z.to_nat index with
             | Some src => (Ok src, Some st.1)
             | None => (Raise (OtherException "IndexError"), Some st.1)
             end
      end
    end
  end.
End resolve.
End Resolve.

(** ** The Vidstreaming provider (streams/vidstreaming.py) *)

Module Vidstreaming.

(** The two literal parts of
    [RE_EXTRACT_SETUP = re.compile(r"playerInstance\.setup\((.+?)\);", re.DOTALL)]. *)
Definition setup_call : string := "playerInstance.setup(".
Definition setup_end : string := ");".

(** [s] without its prefix [p], when it has it. *)
Fixpoint strip_prefix (p s : string) : option string :=
  match p, s with
  | EmptyString, _ => Some s
  | String a p', String b s' => if Ascii.eqb a b then strip_prefix p' s' else None
  | String _ _, EmptyString => None
  end.

(** The lazy group followed by the end: the shortest text, and for [group]
    the shortest non-empty text ([.+?], any character under [DOTALL]),
    after which [s] goes on with ");". *)
Fixpoint until_end (s : string) : option string :=
  match strip_prefix setup_end s with
  | Some _ => Some EmptyString
  | None =>
    match s with
    | EmptyString => None
    | String c s' => String c <$> until_end s'
    end
  end.

Definition group (s : string) : option string :=
  match s with
  | EmptyString => None
  | String c s' => String c <$> until_end s'
  end.

(** [RE_EXTRACT_SETUP.search(text)] and [match.group(1)]: the match at the
    leftmost position that has one. *)
Fixpoint search (text : string) : option string :=
  match (match strip_prefix setup_call text with
         | Some rest => group rest
         | None => None
         end) with
  | Some g => Some g
  | None =>
    match text with
    | EmptyString => None
    | String _ text' => search text'
    end
  end.

(** A JavaScript value as [parse_js_json] (grobber/utils.py, not among the
    sources) hands it back; a dict is the list of its items. *)
Unset Elimination Schemes.
Inductive json : Type :=
| JNull
| JBool (b : bool)
| JNum (z : Z)
| JStr (s : string)
| JList (l : list json)
| JDict (d : list (string * json)).
Set Elimination Schemes.

(** Truth value of a Python value. *)
Definition truthy (v : json) : bool :=
  match v with
  | JNull => false
  | JBool b => b
  | JNum z => negb (z =? 0)
  | JStr s => negb (String.eqb s EmptyString)
  | JList l => truthy_list l
  | JDict d => truthy_list d
  end.

(** [d.get(key)] and [d[key]]; only a dict has them with a string key. *)
Fixpoint assoc (key : string) (d : list (string * json)) : option json :=
  match d with
  | [] => None
  | (k, v) :: d' => if String.eqb k key then Some v else assoc key d'
  end.

Definition dict_get (key : string) (data : json) : result json :=
  match data with
  | JDict d => Ok (default JNull (assoc key d))
  | _ => Raise (OtherException "AttributeError")
  end.

Definition subscript (key : string) (data : json) : result json :=
  match data with
  | JDict d =>
    match assoc key d with
    | Some v => Ok v
    | None => Raise KeyError
    end
  | _ => Raise (OtherException "TypeError")
  end.

Section provider.
(** [parse_js_json], and the two uses of [Request] on a value taken from
    the player data: [get_successful_links] on the requests of the files,
    and [head_success] on the request of the image. *)
Variable parse_js_json : string -> result json.
Variable get_successful_links : list json -> result (list string).
Variable head_success : json -> result bool.

(** [extract_player_data] (vidstreaming.py, 16-20). *)
Definition extract_player_data (text : string) : result json :=
  match search text with
  | None => Ok (JDict [])
  | Some g => parse_js_json g
  end.

(** The body of [player_data] (vidstreaming.py, 29-34) on the awaited text
    of the page. *)
Definition player_data (text : result string) : result json :=
  let* t := text in extract_player_data t.

(** The body of [links] (vidstreaming.py, 44-51) on the awaited player
    data. *)
Definition links (data : result json) : result (list string) :=
  let* d := data in
  let* raw_sources := dict_get "sources" d in
  if negb (truthy raw_sources) then Ok []
  else
    match raw_sources with
    | JList l =>
      let* files := gather (subscript "file" <$> l) in
      get_successful_links files
    | _ => Raise (OtherException "TypeError")
    end.

(** The body of [poster] (vidstreaming.py, 37-41). *)
Definition poster (data : result json) : result json :=
  let* d := data in
  let* link := dict_get "image" d in
  if truthy link then
    let* ok := head_success link in
    if ok then Ok link else Ok JNull
  else Ok JNull.

(** A Vidstreaming stream object on a page with the given text: [links] is
    what each extraction yields, [external] is true. *)
Definition stream_on (sid : nat) (link : string) (text : result string) (ticks : nat)
    : Stream.t :=
  Stream.Make sid "Vidstreaming" (Some "vidstreaming.io") 100 false link
    (Stream.Remote (Ok true) (fun _ => links (player_data text)) ticks)
    0 None None None false.
End provider.
End Vidstreaming.

(** ** The identity of a show: [uid] (models.py, 34 and 357-365) *)

Module Uid.

(** A text is the list of its code points. [RE_UID_CLEANER] is
    [[^a-z0-9一-龯]+]: a character stays when it is a lower-case ASCII
    letter, a digit, or lies between U+4E00 and U+9FAF. *)
Definition kept (c : N) : bool :=
  ((97 <=? c) && (c <=? 122) || (48 <=? c) && (c <=? 57)
   || (19968 <=? c) && (c <=? 40879))%N.

(** [RE_UID_CLEANER.sub("", text)]: every run of other characters is
    removed. *)
Definition clean (text : list N) : list N := List.filter kept text.

Definition hyphen : N := 45%N.

(** "_dub". *)
Definition dub_suffix : list N := [95; 100; 117; 98]%N.

Section uid.
(** [str.lower]. *)
Variable lower : list N -> list N.

(** The body of [uid] on the name of the class, the awaited title, the
    value of the awaited language and the awaited [is_dub]:
    [f"{name}-{anime}-{lang}{dubbed}"]. *)
Definition uid (type_name title lang : list N) (is_dub : bool) : list N :=
  clean (lower type_name) ++ hyphen :: clean (lower title)
  ++ hyphen :: lang ++ (if is_dub then dub_suffix else []).
End uid.
End Uid.

(** ** Concrete inputs *)

Module Examples.

(** Two computations that complete in the same tick of the event loop; the
    predicate is the default [bool], on integers. *)
Definition truth (x : Z) : bool := negb (x =? 0).

Definition two_at_once : list (Race.task Z) :=
  [Race.Task 0 1 (Ok 0); Race.Task 1 1 (Ok 7)].

(** A Vidstreaming stream (vidstreaming.py, 23-55: [HOST], the inherited
    [PRIORITY = 100] and [persist = False], [external] always true) whose
    extraction of the links answers as [fetch]. *)
Definition vidstreaming (sid : nat) (link : string)
    (fetch : nat -> result (list string)) : Stream.t :=
  Stream.Make sid "Vidstreaming" (Some "vidstreaming.io") 100 false link
    (Stream.Remote (Ok true) fetch 1) 0 None None None false.

(** The first extraction fails with a network error; a later one would
    succeed. *)
Definition flaky_fetch (n : nat) : result (list string) :=
  match n with
  | O => Raise (OtherException "ClientConnectionError")
  | S _ => Ok ["http://cdn.example/e1.mp4"]
  end.

Definition flaky : Stream.t := vidstreaming 0 "http://vidstreaming.io/e1" flaky_fetch.

Definition answers_at_last : Stream.remote :=
  Stream.Remote (Ok true) (fun _ => Ok ["http://cdn.example/e1.mp4"]) 1.

(** Streams as they stand when an episode is persisted: one resolved to no
    links and no poster, one with a poster. *)
Definition resolved (sid : nat) (links : list string) (poster : option string)
    : Stream.t :=
  Stream.Make sid "Vidstreaming" (Some "vidstreaming.io") 100 false
    "http://vidstreaming.io/e1" answers_at_last 1 (Some links) (Some poster)
    (Some (truthy_list links)) true.

Definition empty_stream : Stream.t := resolved 0 [] None.
Definition poster_stream : Stream.t := resolved 1 [] (Some "http://cdn.example/p.jpg").

(** A show of a site that lists [n] episodes; [cached] are the episodes
    already held. *)
Definition episode (i : Z) : Episode.t :=
  Episode.Make ("http://site.example/show/" ++ pretty i)
               (Ok ["http://vidstreaming.io/e1"]) None None false.

Definition listing (n : nat) : list Episode.t :=
  episode <$> seqZ 0 (Z.of_nat n).

Definition show (n : nat) (count : option Z) (cached : option (gmap Z Episode.t))
    : Anime.t :=
  Anime.Make (Ok (listing n)) (fun i => Ok (episode i)) count cached false [].

(** The first episode was resolved before: its stream list is cached. *)
Definition seen_episode : Episode.t :=
  Episode.Make "http://site.example/show/0" (Ok ["http://vidstreaming.io/e1"])
               (Some [poster_stream]) (Some (Some 1%nat)) false.

(** Two episodes are cached, the site now reports four. *)
Definition grown_show : Anime.t :=
  show 4 (Some 4) (Some (<[0 := seen_episode]> (<[1 := episode 1]> ∅))).

(** The host of a plain absolute URL, [scheme://host/...], as yarl's
    [URL.host] gives it for the links of the examples. *)
Fixpoint after_scheme (url : string) : option string :=
  match url with
  | String ":" (String "/" (String "/" rest)) => Some rest
  | String _ url' => after_scheme url'
  | EmptyString => None
  end.

Fixpoint authority (s : string) : string :=
  match s with
  | EmptyString => EmptyString
  | String c s' => if occurs c "/?#:" then EmptyString else String c (authority s')
  end.

Definition url_host (url : string) : option string :=
  match after_scheme url with
  | Some rest =>
    match authority rest with
    | EmptyString => None
    | host => Some host
    end
  | None => None
  end.

(** The only provider among the sources (vidstreaming.py). *)
Definition Vidstreaming : StreamClass :=
  {| cls_name := "Vidstreaming"; cls_HOST := Some "vidstreaming.io";
     cls_PRIORITY := 100; cls_persist := false |}.

(** The episode of the scenario: one embed on a known host, one on a host
    no provider claims. *)
Definition two_embeds : Episode.t :=
  Episode.Make "http://site.example/show/1"
               (Ok ["http://vidstreaming.io/e1"; "http://unknown-host/x"])
               None None false.

(** A request for two results of a title, and what the sources find. *)
Definition no_language (s : string) : option Query.Language := None.
Definition no_bool (s : string) : option bool := None.

Definition hit (certainty : Q) : Query.SearchResult :=
  {| Query.anime := show 2 None None; Query.certainty := certainty |}.

Definition found_three (query : string) (language : Query.Language) (dubbed : bool)
    : list Query.SearchResult :=
  [hit (45 # 100); hit (93 # 100); hit (71 # 100)].

Definition preloaded (a : Anime.t) : result unit := Ok tt.

Definition two_results : gmap string string :=
  <["anime" := "one piece"]> (<["results" := "2"]> ∅).

Definition too_many : gmap string string :=
  <["anime" := "one piece"]> (<["results" := "21"]> ∅).

(** A candidate of the given priority whose validation takes [ticks] ticks
    and whose extraction finds [links]; it may be used externally. *)
Definition candidate (sid : nat) (priority : Z) (ticks : nat) (links : list string)
    : Stream.t :=
  Stream.Make sid "Provider" (Some "provider.example") priority false
    "http://provider.example/embed"
    (Stream.Remote (Ok true) (fun _ => Ok links) ticks) 0 None None None false.

Definition episode_with (candidates : list Stream.t) : Episode.t :=
  Episode.Make "http://site.example/show/1" (Ok []) (Some candidates) None false.

(** Priorities [10, 10, 5]; the first candidate has no links, the other two
    have one; the two of priority 10 answer in the same tick. *)
Definition contested : Episode.t :=
  episode_with [candidate 0 10 1 []; candidate 1 10 1 ["http://cdn.example/b.mp4"];
                candidate 2 5 1 ["http://cdn.example/c.mp4"]].

(** Priorities [10, 10, 5]; neither candidate of priority 10 has links. *)
Definition fallback : Episode.t :=
  episode_with [candidate 0 10 1 []; candidate 1 10 3 [];
                candidate 2 5 1 ["http://cdn.example/c.mp4"]].

(** Two working candidates of one priority, the second slower. *)
Definition raced : Episode.t :=
  episode_with [candidate 0 10 1 ["http://cdn.example/a.mp4"];
                candidate 1 10 4 ["http://cdn.example/b.mp4"]].

Definition nowhere (link : string) : option string := None.
Definition offline (link : string) : Stream.remote := answers_at_last.

End Examples.

Module MoreExamples.

(** Two computations that complete one after the other. *)
Definition staggered : list (Race.task Z) :=
  [Race.Task 0 1 (Ok 0); Race.Task 1 2 (Ok 7)].

(** The first computation to complete fails with an exception. *)
Definition failing_first : list (Race.task Z) :=
  [Race.Task 0 1 (Raise (OtherException "ClientConnectionError")); Race.Task 1 3 (Ok 7)].

(** A second provider, of lower priority than Vidstreaming, and an episode
    whose first embed goes to it. *)
Definition Mirror : StreamClass :=
  {| cls_name := "Mirror"; cls_HOST := Some "mirror.example";
     cls_PRIORITY := 50; cls_persist := false |}.

Definition mixed_embeds : Episode.t :=
  Episode.Make "http://site.example/show/2"
               (Ok ["http://mirror.example/a"; "http://vidstreaming.io/e1"])
               None None false.

(** A request for an episode of a show by its uid, and sources that know
    that one show. *)
Definition known_uid (uid : string) : option Anime.t :=
  if String.eqb uid "site-show-en" then Some (Examples.show 2 None None) else None.

Definition no_title (title : string) (dubbed : option bool)
    (language : option Query.Language) : option Anime.t := None.

Definition no_slot (e : Episode.t) : option (list string) := None.

Definition episode_request (index : string) : gmap string string :=
  <["uid" := "site-show-en"]> (<["episode" := index]> ∅).

(** A page with a player set-up, and a parser that reads nothing from
    it. *)
Definition page : string :=
  "<script>playerInstance.setup({sources:[]});</script>".

Definition parse_nothing (text : string) : result Vidstreaming.json :=
  Ok (Vidstreaming.JDict []).

Definition no_links (files : list Vidstreaming.json) : result (list string) := Ok [].

(** [str.lower] on ASCII texts, and two texts as code points:
    "GogoAnime" and "One Piece!". *)
Definition ascii_lower (text : list N) : list N :=
  (fun c => if ((65 <=? c) && (c <=? 90))%N then (c + 32)%N else c) <$> text.

Definition gogoanime : list N := [71; 111; 103; 111; 65; 110; 105; 109; 101]%N.
Definition one_piece : list N := [79; 110; 101; 32; 80; 105; 101; 99; 101; 33]%N.
Definition en : list N := [101; 110]%N.

End MoreExamples.

(** * Properties *)

(** ** The race selector *)

Section race_facts.
Context {T L : Type}.
Variable wait : L -> list (Race.task T) -> list (Race.task T) * list (Race.task T) * L.
Variable predicate : T -> L -> bool * L.
Hypothesis wait_ok : Race.wait_spec wait.

Local Abbreviation loop := (Race.get_first_loop wait predicate).

Lemma wait_split s c coros done pending s1 :
  wait s (c :: coros) = (done, pending, s1) ->
  done <> [] /\ done ++ pending ≡ₚ c :: coros.
Proof.
  intros Hw. destruct (wait_ok s (c :: coros)) as [Hd Hp]; [done|].
  rewrite Hw in Hd, Hp. by simpl in *.
Qed.

Lemma wait_shrinks s c coros d rest pending s1 :
  wait s (c :: coros) = (d :: rest, pending, s1) ->
  (length pending <= length coros)%nat.
Proof.
  intros Hw. apply wait_split in Hw as [_ Hp].
  apply Permutation_length in Hp. rewrite length_app in Hp. simpl in Hp. lia.
Qed.

(** The loop of [get_first] ends: one round per pending computation. *)
Lemma get_first_loop_total fuel s coros :
  (length coros <= fuel)%nat -> is_Some (loop fuel s coros).
Proof.
  revert s coros. induction fuel as [|fuel IH]; intros s [|c coros] Hlen;
    simpl in *; try (by eexists); try lia.
  destruct (wait s (c :: coros)) as [[done pending] s1] eqn:Hw.
  destruct done as [|d rest].
  { apply wait_split in Hw as [Hd _]. by destruct Hd. }
  pose proof (wait_shrinks _ _ _ _ _ _ _ Hw) as Hsh.
  destruct (Race.outcome d) as [res|e]; [|by eexists].
  destruct (predicate res s1) as [[] s2]; [by eexists|].
  destruct (IH s2 pending) as [r Hr]; [lia|]. rewrite Hr. by eexists.
Qed.

Lemma get_first_total s coros : is_Some (Race.get_first wait predicate s coros).
Proof. by apply get_first_loop_total. Qed.

(** Every computation handed in is accounted for: read, left unread in a
    [done] set, or still outstanding at the end. *)
Lemma get_first_loop_accounts fuel s coros sel s' :
  loop fuel s coros = Some (sel, s') ->
  Race.examined sel ++ Race.unread sel ++ Race.outstanding sel ≡ₚ coros.
Proof.
  revert s coros sel s'. induction fuel as [|fuel IH]; intros s [|c coros] sel s' Hrun;
    simpl in Hrun; try (by simplify_eq).
  destruct (wait s (c :: coros)) as [[done pending] s1] eqn:Hw.
  destruct done as [|d rest].
  { apply wait_split in Hw as [Hd _]. by destruct Hd. }
  apply wait_split in Hw as [_ Hp].
  destruct (Race.outcome d) as [res|e]; [|by simplify_eq].
  destruct (predicate res s1) as [[] s2]; [by simplify_eq|].
  destruct (loop fuel s2 pending) as [[sel0 s0]|] eqn:Hrec;
    unfold Race.note in Hrun; simplify_eq/=.
  apply IH in Hrec. rewrite <- Hp, <- Hrec. simpl. f_equiv. solve_Permutation.
Qed.

(** A returned value is the result of one of the computations and passed
    the predicate; everything still outstanding was cancelled. *)
Lemma get_first_loop_winner fuel s coros sel s' v :
  loop fuel s coros = Some (sel, s') ->
  Race.value sel = Ok (Some v) ->
  (exists t s0, t ∈ coros /\ t ∈ Race.examined sel /\ Race.outcome t = Ok v
                /\ (predicate v s0).1 = true)
  /\ Race.cancelled sel = Race.outstanding sel.
Proof.
  revert s coros sel s'. induction fuel as [|fuel IH]; intros s [|c coros] sel s' Hrun Hv;
    simpl in Hrun; try (by simplify_eq).
  destruct (wait s (c :: coros)) as [[done pending] s1] eqn:Hw.
  destruct done as [|d rest].
  { apply wait_split in Hw as [Hd _]. by destruct Hd. }
  apply wait_split in Hw as [_ Hp].
  destruct (Race.outcome d) as [res|e] eqn:Hd; [|by simplify_eq].
  destruct (predicate res s1) as [[] s2] eqn:Hpred.
  - simplify_eq/=. split; [|done]. exists d, s1. rewrite Hpred.
    split_and!; [|apply list_elem_of_here|done..].
    rewrite <- Hp. apply list_elem_of_here.
  - destruct (loop fuel s2 pending) as [[sel0 s0]|] eqn:Hrec;
    unfold Race.note in Hrun; simplify_eq/=.
    destruct (IH _ _ _ _ Hrec Hv) as [(t & s3 & Hin & Hex & Ht & Hpt) Hc].
    split; [|done]. exists t, s3. split_and!; [|by apply list_elem_of_further|done..].
    rewrite <- Hp. apply list_elem_of_further, elem_of_app. by right.
Qed.

(** When [get_first] returns nothing, no computation is left outstanding
    and every result it read failed the predicate. *)
Lemma get_first_loop_nothing fuel s coros sel s' :
  loop fuel s coros = Some (sel, s') ->
  Race.value sel = Ok None ->
  Race.outstanding sel = [] /\ Race.cancelled sel = []
  /\ forall t, t ∈ Race.examined sel ->
       exists v s0, Race.outcome t = Ok v /\ (predicate v s0).1 = false.
Proof.
  revert s coros sel s'. induction fuel as [|fuel IH]; intros s [|c coros] sel s' Hrun Hv;
    simpl in Hrun; try (by simplify_eq);
    try (simplify_eq/=; split_and!; [done..|]; intros t Ht; by apply elem_of_nil in Ht).
  destruct (wait s (c :: coros)) as [[done pending] s1] eqn:Hw.
  destruct done as [|d rest].
  { apply wait_split in Hw as [Hd _]. by destruct Hd. }
  destruct (Race.outcome d) as [res|e] eqn:Hd; [|by simplify_eq].
  destruct (predicate res s1) as [[] s2] eqn:Hpred; [by simplify_eq|].
  destruct (loop fuel s2 pending) as [[sel0 s0]|] eqn:Hrec;
    unfold Race.note in Hrun; simplify_eq/=.
  destruct (IH _ _ _ _ Hrec Hv) as (Ho & Hc & Hall).
  split_and!; [done..|]. intros t [->|Ht]%elem_of_cons; [|by apply Hall].
  exists res, s1. by rewrite Hpred.
Qed.

(** When every computation completes with a result that fails the
    predicate, [get_first] returns nothing. *)
Lemma get_first_loop_all_fail fuel s coros sel s' :
  (forall t, t ∈ coros ->
     exists v, Race.outcome t = Ok v /\ forall s0, (predicate v s0).1 = false) ->
  loop fuel s coros = Some (sel, s') ->
  Race.value sel = Ok None.
Proof.
  revert s coros sel s'. induction fuel as [|fuel IH]; intros s [|c coros] sel s' Hall Hrun;
    simpl in Hrun; try (by simplify_eq).
  destruct (wait s (c :: coros)) as [[done pending] s1] eqn:Hw.
  destruct done as [|d rest].
  { apply wait_split in Hw as [Hd _]. by destruct Hd. }
  apply wait_split in Hw as [_ Hp].
  assert (Hsub : forall t, t ∈ d :: rest ++ pending -> t ∈ c :: coros).
  { intros t Ht. by rewrite <- Hp. }
  destruct (Hall d) as (v & Hv & Hf); [apply Hsub, list_elem_of_here|].
  rewrite Hv in Hrun. specialize (Hf s1).
  destruct (predicate v s1) as [ok s2]; simpl in Hf; subst ok.
  destruct (loop fuel s2 pending) as [[sel0 s0]|] eqn:Hrec;
    unfold Race.note in Hrun; simplify_eq/=.
  eapply IH; [|done]. intros t Ht.
  apply Hall, Hsub, list_elem_of_further, elem_of_app. by right.
Qed.

(** An empty collection: nothing to wait for, nothing returned. *)
Lemma get_first_nil s :
  Race.get_first wait predicate s [] = Some (Race.Selection (Ok None) [] [] [] [], s).
Proof. reflexivity. Qed.
End race_facts.

(** ** The event loop with a clock meets the contract of [asyncio.wait] *)

Lemma filter_split {A : Type} (f : A -> bool) (l : list A) :
  List.filter f l ++ List.filter (fun x => negb (f x)) l ≡ₚ l.
Proof.
  induction l as [|x l IH]; [done|]. simpl. destruct (f x); simpl.
  - by f_equiv.
  - rewrite <- Permutation_middle. by f_equiv.
Qed.

Lemma earliest_reached {T : Type} (c : Race.task T) (coros : list (Race.task T)) :
  exists t, t ∈ c :: coros /\ Race.finish t = Race.earliest (c :: coros).
Proof.
  simpl. induction coros as [|u coros IH]; simpl.
  - exists c. split; [apply list_elem_of_here|done].
  - destruct IH as (t & Hin & Ht).
    destruct (Nat.min_spec (Race.finish u)
                (foldr (fun u m => Nat.min (Race.finish u) m) (Race.finish c) coros))
      as [[_ ->]|[_ ->]].
    + exists u. split; [|done]. apply list_elem_of_further, list_elem_of_here.
    + exists t. split; [|done].
      apply elem_of_cons in Hin as [->|Hin]; [apply list_elem_of_here|].
      by do 2 apply list_elem_of_further.
Qed.

Lemma asyncio_wait_ok {T : Type} : Race.wait_spec (@Race.asyncio_wait T).
Proof.
  intros now [|c coros] Hne; [done|]. unfold Race.asyncio_wait.
  cbv beta iota zeta delta [fst snd].
  split; [|apply filter_split].
  destruct (earliest_reached c coros) as (t & Hin & Ht).
  intros Hnil.
  assert (Hmem : t ∈ List.filter
            (fun t => Nat.leb (Race.finish t) (Nat.max now (Race.earliest (c :: coros))))
            (c :: coros)).
  { apply list_elem_of_In, filter_In. split; [by apply list_elem_of_In|].
    apply Nat.leb_le. lia. }
  rewrite Hnil in Hmem. by apply elem_of_nil in Hmem.
Qed.

(** C1 (defect): two computations complete in the same tick, so one call of
    [asyncio.wait] hands both back as [done]; [get_first] reads only
    [next(iter(done))], whose result 0 fails the predicate, and never reads
    the other, whose result 7 satisfies it: it returns nothing although a
    completed result satisfies the predicate. *)
Theorem get_first_leaves_done_result_unread :
  Race.get_first Race.asyncio_wait (Race.sync_predicate Examples.truth) 0%nat
                 Examples.two_at_once
  = Some (Race.Selection (Ok None) [] [Race.Task 0 1 (Ok 0)] [Race.Task 1 1 (Ok 7)] [],
          1%nat)
  /\ exists t, t ∈ Examples.two_at_once /\ Race.outcome t = Ok 7 /\ Examples.truth 7 = true.
Proof.
  split; [reflexivity|].
  exists (Race.Task 1 1 (Ok 7)). split_and!; [|done..].
  apply list_elem_of_further, list_elem_of_here.
Qed.

(** ** Stream.working *)

Lemma working_first_read (s : Stream.t) :
  Stream._working s = None ->
  Stream.working s =
    match Stream.working_body (Stream.links s).1 with
    | Ok w => (Ok w, Stream.with_working w (Stream.links s).2)
    | Raise e => (Raise e, (Stream.links s).2)
    end.
Proof.
  intros Hslot. unfold Stream.working, cached_property. rewrite Hslot.
  by destruct (Stream.links s) as [r s1].
Qed.

Lemma working_cached (w : bool) (s : Stream.t) :
  Stream._working s = Some w -> Stream.working s = (Ok w, s).
Proof. intros Hslot. unfold Stream.working, cached_property. by rewrite Hslot. Qed.

(** C4: on its first read [working] is true exactly when the awaited links
    are a non-empty list; when awaiting the links raises an exception or is
    cancelled it is false, no error escapes; and whatever it returned stays
    in the slot, so that a later read returns the same value and leaves the
    object as it is (no further extraction), whatever the site would answer
    by then. *)
Theorem working_links_nonempty_and_cached (s : Stream.t) :
  Stream._working s = None ->
  (forall l, (Stream.links s).1 = Ok l ->
     ((Stream.working s).1 = Ok true <-> l <> [])
     /\ ((Stream.working s).1 = Ok false <-> l = []))
  /\ (forall e, (Stream.links s).1 = Raise e ->
        e = CancelledError \/ is_Exception e = true ->
        (Stream.working s).1 = Ok false)
  /\ (forall w, (Stream.working s).1 = Ok w ->
        Stream._working (Stream.working s).2 = Some w
        /\ forall r,
             Stream.working (Stream.with_site r (Stream.working s).2)
             = (Ok w, Stream.with_site r (Stream.working s).2)).
Proof.
  intros Hslot. rewrite (working_first_read s Hslot). split_and!.
  - intros l Hl. rewrite Hl. simpl. destruct l as [|x l]; simpl; [naive_solver|].
    replace (0 <? Z.pos (Pos.of_succ_nat (length l))) with true by (symmetry; by apply Z.ltb_lt).
    naive_solver.
  - intros e He Hcls. rewrite He. destruct Hcls as [->|Hcls]; [done|].
    simpl. destruct e; try done.
  - intros w Hw. destruct (Stream.working_body (Stream.links s).1) as [w0|e]; [|done].
    simpl in Hw. simplify_eq. split; [done|]. intros r. by apply working_cached.
Qed.

Lemma working_links_nonempty_and_cached_witness :
  (Stream.working Examples.flaky).1 = Ok false
  /\ Stream.working (Stream.with_site Examples.answers_at_last (Stream.working Examples.flaky).2)
     = (Ok false, Stream.with_site Examples.answers_at_last (Stream.working Examples.flaky).2).
Proof.
  pose proof (working_links_nonempty_and_cached Examples.flaky eq_refl) as (_ & Hraise & Hkeep).
  assert (Hfalse : (Stream.working Examples.flaky).1 = Ok false).
  { apply (Hraise (OtherException "ClientConnectionError")); [reflexivity|by right]. }
  split; [exact Hfalse|]. exact (proj2 (Hkeep false Hfalse) Examples.answers_at_last).
Defined.

(** ** Episode.serialise_special *)

(** C7: in the serialisation of the attribute [streams], a stream that
    resolved to no links and to no poster and does not ask to be persisted
    is left out, and a stream with a poster, with links, or with
    [persist == True] is kept, at its place among the others. *)
Theorem serialise_special_streams_drops_empty {B : Type} (state : Stream.t -> B)
    (before after : list Stream.t) (x : Stream.t) :
  (Stream._links x = Some [] -> Stream._poster x = Some None ->
   Stream.persist x = false ->
   Episode.serialise_special state "streams" (Episode.StreamList (before ++ x :: after))
   = Episode.serialise_special state "streams" (Episode.StreamList (before ++ after)))
  /\ ((exists p, Stream._poster x = Some (Some p) /\ p <> "")
      \/ (exists l, Stream._links x = Some l /\ l <> [])
      \/ Stream.persist x = true ->
      Episode.serialise_special state "streams" (Episode.StreamList (before ++ x :: after))
      = Ok (Episode.BsonList
              (map state (List.filter Episode.persist_worthy before)
               ++ state x :: map state (List.filter Episode.persist_worthy after)))).
Proof.
  unfold Episode.serialise_special. simpl String.eqb. cbv iota.
  rewrite !List.filter_app. simpl List.filter. split.
  - intros Hl Hp Hper. unfold Episode.persist_worthy at 2. by rewrite Hl, Hp, Hper.
  - intros Hkeep.
    assert (Hw : Episode.persist_worthy x = true).
    { unfold Episode.persist_worthy.
      destruct Hkeep as [(p & -> & Hp)|[(l & -> & Hl)| -> ]].
      - destruct p; [done|]. simpl. by rewrite orb_true_r.
      - destruct l; [done|]. simpl. by rewrite orb_true_r.
      - done. }
    rewrite Hw. by rewrite map_app.
Qed.

Lemma serialise_special_streams_drops_empty_witness :
  Episode.serialise_special Stream.sid "streams"
    (Episode.StreamList ([] ++ Examples.empty_stream :: [Examples.poster_stream]))
  = Episode.serialise_special Stream.sid "streams"
      (Episode.StreamList ([] ++ [Examples.poster_stream]))
  /\ Episode.serialise_special Stream.sid "streams"
       (Episode.StreamList ([Examples.empty_stream] ++ Examples.poster_stream :: []))
     = Ok (Episode.BsonList
             (map Stream.sid (List.filter Episode.persist_worthy [Examples.empty_stream])
              ++ Stream.sid Examples.poster_stream
                 :: map Stream.sid (List.filter Episode.persist_worthy []))).
Proof.
  split.
  - apply (proj1 (serialise_special_streams_drops_empty Stream.sid []
                    [Examples.poster_stream] Examples.empty_stream)); reflexivity.
  - apply (proj2 (serialise_special_streams_drops_empty Stream.sid
                    [Examples.empty_stream] [] Examples.poster_stream)).
    left. exists "http://cdn.example/p.jpg". split; [reflexivity|discriminate].
Defined.

(** ** Anime.episodes and Anime.get *)

Lemma fill_spec (construct : Z -> result Episode.t) (indices : list Z) :
  forall (cache : gmap Z Episode.t) r cache' calls,
    Anime.fill construct indices cache = (r, cache', calls) ->
    (forall i e, cache !! i = Some e -> cache' !! i = Some e)
    /\ (forall i, i ∈ calls -> i ∈ indices /\ cache !! i = None)
    /\ (forall i, i ∉ calls -> cache' !! i = cache !! i)
    /\ (forall i ep, i ∈ calls -> construct i = Ok ep -> cache' !! i = Some ep)
    /\ (r = Ok tt -> forall i, i ∈ indices -> is_Some (cache' !! i)).
Proof.
  induction indices as [|i rest IH]; intros cache r cache' calls Hfill; simpl in Hfill.
  { simplify_eq. split_and!; try done.
    - intros i Hi. by apply elem_of_nil in Hi.
    - intros i ep Hi. by apply elem_of_nil in Hi.
    - intros _ i Hi. by apply elem_of_nil in Hi. }
  destruct (cache !! i) as [e0|] eqn:Hci.
  { destruct (IH _ _ _ _ Hfill) as (Hkeep & Hcalled & Hrest & Hbuilt & Hall).
    split_and!; try done.
    - intros i0 Hi0. destruct (Hcalled i0 Hi0). split; [by apply list_elem_of_further|done].
    - intros Hr i0 [->|Hi0]%elem_of_cons; [|by apply Hall].
      rewrite (Hkeep _ _ Hci). by eexists. }
  destruct (construct i) as [ep|e] eqn:Hmk.
  - destruct (Anime.fill construct rest (<[i:=ep]> cache)) as [[r0 cache0] calls0] eqn:Hrec.
    simplify_eq. destruct (IH _ _ _ _ Hrec) as (Hkeep & Hcalled & Hrest & Hbuilt & Hall).
    split_and!.
    + intros i0 e He. apply Hkeep. rewrite lookup_insert_ne; [done|]. congruence.
    + intros i0 [->|Hi0]%elem_of_cons; [split; [apply list_elem_of_here|done]|].
      destruct (Hcalled i0 Hi0) as [Hin Hnone]. split; [by apply list_elem_of_further|].
      destruct (decide (i = i0)) as [->|Hne]; [by rewrite lookup_insert_eq in Hnone|].
      by rewrite lookup_insert_ne in Hnone.
    + intros i0 Hi0. apply not_elem_of_cons in Hi0 as [Hne Hi0].
      rewrite (Hrest _ Hi0). by rewrite lookup_insert_ne.
    + intros i0 ep0 [->|Hi0]%elem_of_cons Hep0; [|by apply Hbuilt].
      assert (ep0 = ep) as -> by congruence. apply Hkeep, lookup_insert_eq.
    + intros Hr i0 [->|Hi0]%elem_of_cons; [|by apply Hall].
      exists ep. apply Hkeep, lookup_insert_eq.
  - simplify_eq. split_and!; try done.
    + intros i0 ->%list_elem_of_singleton. split; [apply list_elem_of_here|done].
    + intros i0 ep ->%list_elem_of_singleton Hep. congruence.
Qed.

Lemma fill_succeeds (construct : Z -> result Episode.t) (indices : list Z) :
  forall cache : gmap Z Episode.t,
    (forall i, i ∈ indices -> exists ep, construct i = Ok ep) ->
    (Anime.fill construct indices cache).1.1 = Ok tt.
Proof.
  induction indices as [|i rest IH]; intros cache Hok; simpl; [done|].
  assert (Hrest : forall i0, i0 ∈ rest -> exists ep, construct i0 = Ok ep).
  { intros i0 Hi0. by apply Hok, list_elem_of_further. }
  destruct (cache !! i); [by apply IH|].
  destruct (Hok i) as [ep ->]; [apply list_elem_of_here|].
  specialize (IH (<[i:=ep]> cache) Hrest).
  by destruct (Anime.fill construct rest (<[i:=ep]> cache)) as [[r0 cache0] calls0].
Qed.

Lemma enumerate_lookup (eps : list Episode.t) (i : Z) :
  Anime.enumerate eps !! i
  = if bool_decide (0 <= i < Z.of_nat (length eps)) then eps !! Z.to_nat i else None.
Proof.
  unfold Anime.enumerate. case_bool_decide as Hi.
  - destruct (lookup_lt_is_Some_2 eps (Z.to_nat i)) as [e He]; [lia|]. rewrite He.
    apply elem_of_list_to_map_1.
    + rewrite fst_zip; [apply NoDup_seqZ|]. rewrite length_seqZ. lia.
    + apply list_elem_of_lookup. exists (Z.to_nat i).
      apply lookup_zip_with_Some. exists i, e. split_and!; [done| |done].
      rewrite lookup_seqZ. split; lia.
  - apply not_elem_of_list_to_map_1. rewrite fst_zip; [|rewrite length_seqZ; lia].
    rewrite elem_of_seqZ. lia.
Qed.

Lemma episode_count_ok (a : Anime.t) (n : Z) :
  (Anime.episode_count a).1 = Ok n ->
  Anime._episode_count (Anime.episode_count a).2 = Some n
  /\ Anime._episodes (Anime.episode_count a).2 = Anime._episodes a
  /\ Anime.get_episode (Anime.episode_count a).2 = Anime.get_episode a
  /\ Anime.get_episodes (Anime.episode_count a).2 = Anime.get_episodes a
  /\ Anime.built (Anime.episode_count a).2 = Anime.built a
  /\ Anime._dirty (Anime.episode_count a).2 = Anime._dirty a.
Proof.
  unfold Anime.episode_count, cached_property.
  destruct (Anime._episode_count a) as [c|] eqn:Hc; simpl.
  - intros [= ->]. by rewrite Hc.
  - destruct (Anime.get_episodes a) as [eps|e] eqn:Heps; simpl; [|done].
    intros [= <-]. done.
Qed.

Lemma episode_count_cached (a : Anime.t) (n : Z) :
  Anime._episode_count a = Some n -> Anime.episode_count a = (Ok n, a).
Proof. intros Hc. unfold Anime.episode_count, cached_property. by rewrite Hc. Qed.

(** The order of the calls: [fill] calls [construct] on the indices missing
    from the dictionary, in the order of the loop, up to the first call that
    raises; without a failure it calls it on all of them. *)
Lemma fill_calls (construct : Z -> result Episode.t) (indices : list Z) :
  NoDup indices ->
  forall (cache : gmap Z Episode.t) r cache' calls,
    Anime.fill construct indices cache = (r, cache', calls) ->
    exists rest,
      filter (fun i => cache !! i = None) indices = calls ++ rest
      /\ match r with
         | Ok _ => rest = [] /\ forall i, i ∈ calls -> exists ep, construct i = Ok ep
         | Raise e =>
           exists front i,
             calls = front ++ [i] /\ construct i = Raise e /\ cache' !! i = None
             /\ forall j, j ∈ front -> exists ep, construct j = Ok ep
         end.
Proof.
  induction 1 as [|i rest Hi Hnd IH]; intros cache r cache' calls Hfill; simpl in Hfill.
  { simplify_eq. exists []. split_and!; [done..|]. intros i Hi. by apply elem_of_nil in Hi. }
  destruct (cache !! i) as [e0|] eqn:Hci.
  { rewrite filter_cons_False by (by rewrite Hci). by apply IH. }
  rewrite filter_cons_True by done.
  destruct (construct i) as [ep|e] eqn:Hmk.
  - destruct (Anime.fill construct rest (<[i:=ep]> cache)) as [[r0 cache0] calls0] eqn:Hrec.
    simplify_eq. destruct (IH _ _ _ _ Hrec) as (rest0 & Hsplit & Hr).
    exists rest0. split.
    + rewrite <- app_comm_cons, <- Hsplit. f_equal.
      clear -Hi. induction rest as [|j rest IH]; [done|].
      apply not_elem_of_cons in Hi as [Hne Hi]. specialize (IH Hi).
      destruct (cache !! j) as [e1|] eqn:Hcj.
      * rewrite (filter_cons_False (fun i0 => cache !! i0 = None)) by (by rewrite Hcj).
        rewrite filter_cons_False; [done|]. by rewrite lookup_insert_ne, Hcj.
      * rewrite (filter_cons_True (fun i0 => cache !! i0 = None)) by done.
        rewrite filter_cons_True; [by f_equal|]. by rewrite lookup_insert_ne.
    + destruct r as [u|e].
      * destruct Hr as [-> Hall]. split; [done|].
        intros i0 [->|Hi0]%elem_of_cons; [by exists ep|by apply Hall].
      * destruct Hr as (front & k & -> & Hk & Hnone & Hfront).
        exists (i :: front), k. split_and!; [done..|].
        intros j [->|Hj]%elem_of_cons; [by exists ep|by apply Hfront].
  - simplify_eq. exists (filter (fun i0 => cache' !! i0 = None) rest). split; [done|].
    exists [], i. split_and!; [done..|]. intros j Hj. by apply elem_of_nil in Hj.
Qed.

(** A dictionary with fewer than [count] keys misses an index below
    [count]. *)
Lemma missing_index (cache : gmap Z Episode.t) (count : Z) :
  Z.of_nat (size cache) < count ->
  filter (fun i => cache !! i = None) (seqZ 0 count) <> [].
Proof.
  intros Hsize Hnil.
  assert (Hsub : (list_to_set (seqZ 0 count) : gset Z) ⊆ dom cache).
  { intros i Hi%elem_of_list_to_set. apply elem_of_dom.
    destruct (cache !! i) as [e|] eqn:Hci; [by eexists|].
    by destruct (filter_nil_not_elem_of _ _ i Hnil Hci). }
  apply subseteq_size in Hsub.
  rewrite size_dom, size_list_to_set, length_seqZ in Hsub by apply NoDup_seqZ. lia.
Qed.

(** [episodes] on a show whose dictionary has fewer keys than the count:
    which calls of [get_episode] it makes, what the dictionary holds
    afterwards and what it returns. *)
Lemma episodes_grown (a : Anime.t)
    (cache : gmap Z Episode.t) (count : Z) :
  Anime._episodes a = Some cache ->
  (Anime.episode_count a).1 = Ok count ->
  Z.of_nat (size cache) < count ->
  exists cache' calls,
    Anime._episodes (Anime.episodes a).2 = Some cache'
    /\ Anime.built (Anime.episodes a).2 = Anime.built a ++ calls
    /\ (forall i e, cache !! i = Some e -> cache' !! i = Some e)
    /\ (forall i, i ∈ calls -> 0 <= i < count /\ cache !! i = None)
    /\ (forall i, i ∉ calls -> cache' !! i = cache !! i)
    /\ (forall i ep, i ∈ calls -> Anime.get_episode a i = Ok ep -> cache' !! i = Some ep)
    /\ (forall m, (Anime.episodes a).1 = Ok m ->
          m = cache' /\ forall i, 0 <= i < count -> is_Some (m !! i))
    /\ calls <> []
    /\ calls `prefix_of` filter (fun i => cache !! i = None) (seqZ 0 count)
    /\ match (Anime.episodes a).1 with
       | Ok m =>
         calls = filter (fun i => cache !! i = None) (seqZ 0 count)
         /\ forall i, i ∈ calls ->
              exists ep, Anime.get_episode a i = Ok ep /\ m !! i = Some ep
       | Raise e =>
         exists front i,
           calls = front ++ [i] /\ Anime.get_episode a i = Raise e
           /\ cache' !! i = None
           /\ forall j, j ∈ front ->
                exists ep, Anime.get_episode a j = Ok ep /\ cache' !! j = Some ep
       end
    /\ ((forall i, 0 <= i < count -> cache !! i = None ->
           exists ep, Anime.get_episode a i = Ok ep) ->
        (Anime.episodes a).1 = Ok cache').
Proof.
  intros Hcache Hcount Hgrown.
  destruct (episode_count_ok a count Hcount) as (_ & Heps & Hmk & _ & Hbuilt & _).
  unfold Anime.episodes. rewrite Hcache.
  destruct (Anime.episode_count a) as [rc a1]. simpl in Hcount, Heps, Hmk, Hbuilt. subst rc.
  replace (Z.of_nat (size cache) =? count) with false by (symmetry; apply Z.eqb_neq; lia).
  simpl negb. cbv iota.
  destruct (Anime.fill (Anime.get_episode a1) (seqZ 0 count) cache)
    as [[r cache'] calls] eqn:Hfill.
  destruct (fill_spec _ _ _ _ _ _ Hfill) as (Hkeep & Hcalled & Hrest & Hnew & Hall).
  destruct (fill_calls _ _ (NoDup_seqZ 0 count) _ _ _ _ Hfill) as (rest & Hsplit & Hr).
  pose proof (missing_index cache count Hgrown) as Hmissing.
  rewrite Hmk in Hnew, Hr.
  exists cache', calls.
  assert (Hstate : Anime._episodes (Anime.with_built calls (Anime.with_episodes cache' a1))
                   = Some cache'
                   /\ Anime.built (Anime.with_built calls (Anime.with_episodes cache' a1))
                      = Anime.built a ++ calls).
  { simpl. by rewrite Hbuilt. }
  destruct Hstate as [Hs1 Hs2].
  assert (Hf1 : forall i, i ∈ calls -> 0 <= i < count /\ cache !! i = None).
  { intros i Hi. destruct (Hcalled i Hi) as [Hin Hnone]. split; [|done].
    apply elem_of_seqZ in Hin. lia. }
  assert (Hne : calls <> []).
  { destruct r as [u|e].
    - destruct Hr as [-> _]. by rewrite app_nil_r in Hsplit; rewrite <- Hsplit.
    - destruct Hr as (front & k & -> & _). by destruct front. }
  assert (Hpre : calls `prefix_of` filter (fun i => cache !! i = None) (seqZ 0 count)).
  { by exists rest. }
  destruct r as [[]|e]; simpl.
  - destruct Hr as [-> Hok]. rewrite app_nil_r in Hsplit.
    split_and!; try done.
    + intros m [= <-]. split; [done|]. intros i Hi. apply Hall; [done|].
      apply elem_of_seqZ. lia.
    + intros i Hi. destruct (Hok i Hi) as [ep Hep]. exists ep. split; [done|].
      by apply Hnew.
  - destruct Hr as (front & k & -> & Hk & Hnone & Hfront).
    split_and!; try done.
    + exists front, k. split_and!; [done..|].
      intros j Hj. destruct (Hfront j Hj) as [ep Hep]. exists ep. split; [done|].
      apply Hnew; [|done]. apply elem_of_app. by left.
    + intros Hctor. destruct (Hf1 k) as [Hk1 Hk2]; [apply elem_of_app; right; apply list_elem_of_here|].
      destruct (Hctor k Hk1 Hk2) as [ep Hep]. congruence.
Qed.


(** C8: when [episodes] is read while the reported count exceeds the number
    of cached episodes, [get_episode] is called on the indices below the
    count that the dictionary misses, in ascending order, at least on the
    first of them and up to the first call that raises; each index whose
    call succeeded holds what the call constructed; every episode already
    in the dictionary stays there unchanged and nothing else in the
    dictionary changes.  The property raises only what a call of
    [get_episode] raised; when the calls for the missing indices succeed
    it returns the dictionary, which then has every index below the
    count. *)
Theorem episodes_fills_missing_keeps_present (a : Anime.t)
    (cache : gmap Z Episode.t) (count : Z) :
  Anime._episodes a = Some cache ->
  (Anime.episode_count a).1 = Ok count ->
  Z.of_nat (size cache) < count ->
  exists cache' calls,
    Anime._episodes (Anime.episodes a).2 = Some cache'
    /\ Anime.built (Anime.episodes a).2 = Anime.built a ++ calls
    /\ (forall i e, cache !! i = Some e -> cache' !! i = Some e)
    /\ (forall i, i ∈ calls -> 0 <= i < count /\ cache !! i = None)
    /\ (forall i, i ∉ calls -> cache' !! i = cache !! i)
    /\ (forall i ep, i ∈ calls -> Anime.get_episode a i = Ok ep -> cache' !! i = Some ep)
    /\ (forall m, (Anime.episodes a).1 = Ok m ->
          m = cache' /\ forall i, 0 <= i < count -> is_Some (m !! i))
    /\ calls <> []
    /\ calls `prefix_of` filter (fun i => cache !! i = None) (seqZ 0 count)
    /\ match (Anime.episodes a).1 with
       | Ok m =>
         calls = filter (fun i => cache !! i = None) (seqZ 0 count)
         /\ forall i, i ∈ calls ->
              exists ep, Anime.get_episode a i = Ok ep /\ m !! i = Some ep
       | Raise e =>
         exists front i,
           calls = front ++ [i] /\ Anime.get_episode a i = Raise e
           /\ cache' !! i = None
           /\ forall j, j ∈ front ->
                exists ep, Anime.get_episode a j = Ok ep /\ cache' !! j = Some ep
       end
    /\ ((forall i, 0 <= i < count -> cache !! i = None ->
           exists ep, Anime.get_episode a i = Ok ep) ->
        (Anime.episodes a).1 = Ok cache').
Proof. apply episodes_grown. Qed.

Lemma episodes_fills_missing_keeps_present_witness :
  exists cache',
    (Anime.episodes Examples.grown_show).1 = Ok cache'
    /\ Anime.built (Anime.episodes Examples.grown_show).2 = [2; 3]
    /\ cache' !! 0 = Some Examples.seen_episode
    /\ cache' !! 2 = Some (Examples.episode 2)
    /\ cache' !! 3 = Some (Examples.episode 3).
Proof.
  destruct (episodes_fills_missing_keeps_present Examples.grown_show
              (<[0 := Examples.seen_episode]> (<[1 := Examples.episode 1]> ∅)) 4)
    as (cache' & calls & H1 & H2 & Hkeep & _ & _ & Hnew & _ & _ & _ & Hrun & Hok).
  - reflexivity.
  - reflexivity.
  - vm_compute. reflexivity.
  - exists cache'.
    assert (Hres : (Anime.episodes Examples.grown_show).1 = Ok cache').
    { apply Hok. intros i _ _. eexists. reflexivity. }
    rewrite Hres in Hrun. destruct Hrun as [Hcalls _].
    assert (Hcalls' : calls = [2; 3]) by (rewrite Hcalls; vm_compute; reflexivity).
    subst calls. split_and!.
    + exact Hres.
    + exact H2.
    + apply Hkeep. reflexivity.
    + apply Hnew; [set_solver|reflexivity].
    + apply Hnew; [set_solver|reflexivity].
Defined.

(** A dictionary with [n] keys, all of them below [n], has every key below
    [n]. *)
Lemma dense_keys (cache : gmap Z Episode.t) (n : Z) :
  (forall i, is_Some (cache !! i) -> 0 <= i < n) ->
  Z.of_nat (size cache) = n ->
  forall i, 0 <= i < n -> is_Some (cache !! i).
Proof.
  intros Hkeys Hsize i Hi.
  assert (Hsub : dom cache ⊆ (list_to_set (seqZ 0 n) : gset Z)).
  { intros k Hk. apply elem_of_list_to_set, elem_of_seqZ.
    apply elem_of_dom in Hk. specialize (Hkeys k Hk). lia. }
  assert (Heq : dom cache = (list_to_set (seqZ 0 n) : gset Z)).
  { apply set_subseteq_size_eq; [done|].
    rewrite size_dom, size_list_to_set by apply NoDup_seqZ.
    rewrite length_seqZ. lia. }
  apply elem_of_dom. rewrite Heq. apply elem_of_list_to_set, elem_of_seqZ. lia.
Qed.

(** On a show whose cache holds no index beyond the count and whose
    episodes can be constructed, [episodes] returns a dictionary with
    exactly the indices below the count. *)
Lemma episodes_dense (a : Anime.t) (n : Z) :
  (Anime.episode_count a).1 = Ok n ->
  match Anime._episodes a with
  | Some cache => forall i, is_Some (cache !! i) -> 0 <= i < n
  | None => exists eps, Anime.get_episodes a = Ok eps /\ Z.of_nat (length eps) = n
  end ->
  (forall i, 0 <= i < n -> exists ep, Anime.get_episode a i = Ok ep) ->
  exists m,
    (Anime.episodes a).1 = Ok m
    /\ (Anime.episode_count (Anime.episodes a).2).1 = Ok n
    /\ forall i, is_Some (m !! i) <-> 0 <= i < n.
Proof.
  intros Hcount Hshape Hmk. unfold Anime.episodes.
  destruct (Anime._episodes a) as [cache|] eqn:Hcache.
  - destruct (episode_count_ok a n Hcount) as (Hslot & _ & Hmk1 & _).
    destruct (Anime.episode_count a) as [rc a1]. simpl in Hcount, Hslot, Hmk1. subst rc.
    destruct (Z.of_nat (size cache) =? n) eqn:Hsize; simpl negb; cbv iota.
    + apply Z.eqb_eq in Hsize. exists cache. simpl. split_and!; [done| |].
      * by rewrite (episode_count_cached a1 n Hslot).
      * intros i. split; [apply Hshape|by apply dense_keys].
    + assert (Hctor : forall i, i ∈ seqZ 0 n -> exists ep, Anime.get_episode a1 i = Ok ep).
      { intros i Hi. rewrite Hmk1. apply Hmk. apply elem_of_seqZ in Hi. lia. }
      pose proof (fill_succeeds (Anime.get_episode a1) (seqZ 0 n) cache Hctor) as Hok.
      destruct (Anime.fill (Anime.get_episode a1) (seqZ 0 n) cache)
        as [[r cache'] calls] eqn:Hfill.
      destruct (fill_spec _ _ _ _ _ _ Hfill) as (Hkeep & Hcalled & Hrest & _ & Hall).
      simpl in Hok. subst r.
      exists cache'. simpl. split_and!; [done| |].
      * by rewrite (episode_count_cached _ n).
      * intros i. split.
        -- intros Hi. destruct (decide (i ∈ calls)) as [Hin|Hout].
           ++ destruct (Hcalled i Hin) as [Hseq _]. apply elem_of_seqZ in Hseq. lia.
           ++ rewrite (Hrest i Hout) in Hi. by apply Hshape.
        -- intros Hi. apply Hall; [done|]. apply elem_of_seqZ. lia.
  - destruct Hshape as (eps & Heps & Hlen). rewrite Heps. exists (Anime.enumerate eps).
    simpl. split_and!; [done| |].
    + revert Hcount. unfold Anime.episode_count, cached_property. simpl.
      destruct (Anime._episode_count a); [done|]. by rewrite Heps.
    + intros i. rewrite enumerate_lookup. case_bool_decide as Hi.
      * split; [lia|]. intros _. apply lookup_lt_is_Some_2. lia.
      * split; [by intros [? ?]|lia].
Qed.

Lemma anime_get_after_episodes (a : Anime.t) (index : Z) :
  (Anime._episodes a ≫= (fun m : gmap Z Episode.t => m !! index)) = None ->
  forall m, (Anime.episodes a).1 = Ok m ->
    (Anime.get index a).1 =
      match m !! index with
      | Some ep => Ok ep
      | None =>
        match (Anime.episode_count (Anime.episodes a).2).1 with
        | Ok count => Raise (EpisodeNotFound index count)
        | Raise e => Raise e
        end
      end.
Proof.
  intros Hmiss m Hm. unfold Anime.get. rewrite Hmiss.
  destruct (Anime.episodes a) as [r a1]. simpl in Hm. subst r. simpl.
  destruct (m !! index); [done|].
  by destruct (Anime.episode_count a1) as [[count|e] a2].
Qed.

Lemma episode_get_spec (registry : list StreamClass) (host_of : string -> option string)
    (net : string -> Stream.remote) (e : Episode.t) (l : list Stream.t) (index : Z) :
  (Episode.streams registry host_of net e).1 = Ok l ->
  ((Episode.get registry host_of net index e).1 = Raise StreamNotFound
   <-> ~ (0 <= index < Z.of_nat (length l)))
  /\ (0 <= index < Z.of_nat (length l) ->
      exists x, l !! Z.to_nat index = Some x
                /\ (Episode.get registry host_of net index e).1 = Ok x).
Proof.
  intros Hl. unfold Episode.get.
  destruct (Episode.streams registry host_of net e) as [r e']. simpl in Hl. subst r.
  destruct (decide (0 <= index < Z.of_nat (length l))) as [Hin|Hout].
  - replace ((0 <=? index) && (index <? Z.of_nat (length l))) with true
      by (symmetry; apply andb_true_iff; split; [apply Z.leb_le|apply Z.ltb_lt]; lia).
    simpl negb. cbv iota.
    destruct (lookup_lt_is_Some_2 l (Z.to_nat index)) as [x Hx]; [lia|]. rewrite Hx. simpl.
    split; [split; [done|by intros []]|]. intros _. by exists x.
  - replace ((0 <=? index) && (index <? Z.of_nat (length l))) with false.
    + simpl. split; [done|]. by intros ?.
    + symmetry. apply andb_false_iff.
      destruct (decide (0 <= index)); [right; apply Z.ltb_ge|left; apply Z.leb_gt]; lia.
Qed.

(** C6: on a show that reports [n] episodes (nothing cached beyond the
    count, and the episodes below it can be constructed), [Anime.get n]
    raises [EpisodeNotFound] and, when [n >= 1], [Anime.get (n - 1)]
    returns an episode; [Episode.get index] raises [StreamNotFound] exactly
    when [index] is outside [0, len(streams)), and returns the stream at
    that position otherwise. *)
Theorem get_raises_not_found_outside_range (a : Anime.t) (n : Z)
    (registry : list StreamClass) (host_of : string -> option string)
    (net : string -> Stream.remote) (e : Episode.t) (l : list Stream.t) (index : Z) :
  (Anime.episode_count a).1 = Ok n ->
  match Anime._episodes a with
  | Some cache => forall i, is_Some (cache !! i) -> 0 <= i < n
  | None => exists eps, Anime.get_episodes a = Ok eps /\ Z.of_nat (length eps) = n
  end ->
  (forall i, 0 <= i < n -> exists ep, Anime.get_episode a i = Ok ep) ->
  (Episode.streams registry host_of net e).1 = Ok l ->
  (Anime.get n a).1 = Raise (EpisodeNotFound n n)
  /\ (1 <= n -> exists ep, (Anime.get (n - 1) a).1 = Ok ep)
  /\ ((Episode.get registry host_of net index e).1 = Raise StreamNotFound
      <-> ~ (0 <= index < Z.of_nat (length l)))
  /\ (0 <= index < Z.of_nat (length l) ->
      exists x, l !! Z.to_nat index = Some x
                /\ (Episode.get registry host_of net index e).1 = Ok x).
Proof.
  intros Hcount Hshape Hmk Hl.
  destruct (episodes_dense a n Hcount Hshape Hmk) as (m & Hm & Hcount' & Hdense).
  split_and!; [| |apply (episode_get_spec _ _ _ _ _ _ Hl)..].
  - rewrite (anime_get_after_episodes a n) with (m := m); [|  |done].
    + destruct (m !! n) as [ep|] eqn:Hn; [|by rewrite Hcount'].
      assert (0 <= n < n) by (apply Hdense; by eexists). lia.
    + destruct (Anime._episodes a) as [cache|]; [|done]. simpl.
      destruct (cache !! n) as [ep|] eqn:Hn; [|done].
      assert (0 <= n < n) by (apply Hshape; by eexists). lia.
  - intros Hn.
    destruct (Anime._episodes a ≫= (fun m : gmap Z Episode.t => m !! (n - 1)))
      as [ep|] eqn:Hhit.
    + exists ep. unfold Anime.get. by rewrite Hhit.
    + rewrite (anime_get_after_episodes a (n - 1) Hhit m Hm).
      destruct (proj2 (Hdense (n - 1))) as [ep Hep]; [lia|]. rewrite Hep. by exists ep.
Qed.

Lemma get_raises_not_found_outside_range_witness :
  (Anime.get 2 (Examples.show 2 None None)).1 = Raise (EpisodeNotFound 2 2)
  /\ (exists ep, (Anime.get (2 - 1) (Examples.show 2 None None)).1 = Ok ep)
  /\ ((Episode.get [] (fun _ => None) (fun _ => Examples.answers_at_last) 1
         Examples.seen_episode).1 = Raise StreamNotFound
      <-> ~ (0 <= 1 < Z.of_nat (length [Examples.poster_stream]))).
Proof.
  destruct (get_raises_not_found_outside_range (Examples.show 2 None None) 2
              [] (fun _ => None) (fun _ => Examples.answers_at_last)
              Examples.seen_episode [Examples.poster_stream] 1)
    as (Hlast & Hprev & Hstream & _).
  - reflexivity.
  - exists (Examples.listing 2). split; reflexivity.
  - intros i _. eexists. reflexivity.
  - reflexivity.
  - split_and!; [exact Hlast|apply Hprev; lia|exact Hstream].
Defined.

(** ** Dirty flags *)

Lemma existsb_false {A : Type} (f : A -> bool) (l : list A) :
  (forall x, x ∈ l -> f x = false) -> existsb f l = false.
Proof.
  intros Hall. destruct (existsb f l) eqn:Hex; [|done].
  apply existsb_exists in Hex as (x & Hin & Hx).
  rewrite (Hall x) in Hx; [done|]. by apply list_elem_of_In.
Qed.

Lemma existsb_true {A : Type} (f : A -> bool) (l : list A) (x : A) :
  x ∈ l -> f x = true -> existsb f l = true.
Proof. intros Hin Hx. apply existsb_exists. exists x. by rewrite <- list_elem_of_In. Qed.

Lemma episode_set_dirty (v : bool) (e : Episode.t) :
  Episode.dirty (Episode.set_dirty v e) = v.
Proof.
  unfold Episode.dirty. simpl. destruct v; [done|].
  destruct (Episode._streams e) as [l|]; [|done]. simpl.
  apply existsb_false. intros x Hx. apply list_elem_of_fmap in Hx as (y & -> & _). done.
Qed.

Lemma episode_stream_marked (j : nat) (e : Episode.t) (l : list Stream.t) (x : Stream.t) :
  Episode._streams e = Some l -> l !! j = Some x ->
  Episode.dirty (Episode.set_stream_dirty j true e) = true.
Proof.
  intros Hl Hj. unfold Episode.dirty. simpl. destruct (Episode._dirty e); [done|].
  rewrite Hl. simpl. apply existsb_true with (Stream.set_dirty true x); [|done].
  apply list_elem_of_lookup. exists j. by rewrite list_lookup_alter_eq, Hj.
Qed.

(** C5, as the code has it: once a stream held in the cached stream list of
    an episode held in the show's episode dictionary is marked dirty, that
    episode and the show report [dirty == True]; and assigning [dirty] at
    the show assigns the same value to every cached episode and, through
    it, to every cached stream, so that clearing the show clears them
    all. *)
Theorem dirty_reaches_owners_and_setter_cascades (a : Anime.t)
    (cache : gmap Z Episode.t) (i : Z) (ep : Episode.t) (l : list Stream.t)
    (j : nat) (x : Stream.t) (v : bool) :
  Anime._episodes a = Some cache -> cache !! i = Some ep ->
  Episode._streams ep = Some l -> l !! j = Some x ->
  (Anime.dirty (Anime.set_stream_dirty i j true a) = true
   /\ exists ep', (Anime._episodes (Anime.set_stream_dirty i j true a)
                     ≫= (fun m : gmap Z Episode.t => m !! i)) = Some ep'
                  /\ Episode.dirty ep' = true)
  /\ (Anime.dirty (Anime.set_dirty v a) = v
      /\ exists ep' l' x',
           (Anime._episodes (Anime.set_dirty v a)
              ≫= (fun m : gmap Z Episode.t => m !! i)) = Some ep'
           /\ Episode.dirty ep' = v
           /\ Episode._streams ep' = Some l' /\ l' !! j = Some x'
           /\ Stream.dirty x' = v).
Proof.
  intros Hcache Hi Hl Hj. split.
  - assert (Hep : alter (Episode.set_stream_dirty j true) i cache !! i
                  = Some (Episode.set_stream_dirty j true ep)).
    { by rewrite lookup_alter_eq, Hi. }
    split.
    + unfold Anime.dirty. simpl. destruct (Anime._dirty a); [done|]. rewrite Hcache. simpl.
      apply existsb_true with (Episode.set_stream_dirty j true ep);
        [|by eapply episode_stream_marked].
      apply list_elem_of_fmap. exists (i, Episode.set_stream_dirty j true ep).
      split; [done|]. by apply elem_of_map_to_list.
    + exists (Episode.set_stream_dirty j true ep). simpl. rewrite Hcache. simpl.
      split; [done|]. by eapply episode_stream_marked.
  - split.
    + unfold Anime.dirty. simpl. destruct v; [done|]. rewrite Hcache. simpl.
      apply existsb_false. intros e' He'.
      apply list_elem_of_fmap in He' as ([k e0] & -> & Hk). simpl.
      apply elem_of_map_to_list in Hk. rewrite lookup_fmap in Hk.
      destruct (cache !! k) as [e1|]; simplify_eq/=. apply episode_set_dirty.
    + exists (Episode.set_dirty v ep), (map (Stream.set_dirty v) l), (Stream.set_dirty v x).
      simpl. rewrite Hcache. simpl. rewrite lookup_fmap, Hi, Hl. simpl.
      split_and!; [done|apply episode_set_dirty|done| |done].
      by rewrite list_lookup_fmap, Hj.
Qed.

Lemma dirty_reaches_owners_and_setter_cascades_witness :
  Anime.dirty (Anime.set_stream_dirty 1 0 true
                 (Examples.show 2 None (Some (Anime.enumerate
                    [Examples.seen_episode; Examples.seen_episode])))) = true
  /\ Anime.dirty (Anime.set_dirty false
                 (Examples.show 2 None (Some (Anime.enumerate
                    [Examples.seen_episode; Examples.seen_episode])))) = false.
Proof.
  destruct (dirty_reaches_owners_and_setter_cascades
              (Examples.show 2 None (Some (Anime.enumerate
                 [Examples.seen_episode; Examples.seen_episode])))
              (Anime.enumerate [Examples.seen_episode; Examples.seen_episode])
              1 Examples.seen_episode [Examples.poster_stream] 0
              Examples.poster_stream false)
    as [[Hup _] [Hdown _]].
  - reflexivity.
  - vm_compute. reflexivity.
  - reflexivity.
  - reflexivity.
  - split; [exact Hup|exact Hdown].
Defined.

(** C5, the claim as stated fails: clearing the flag at the show clears the
    flag of a child episode whose stream was dirty. *)
Lemma clearing_show_does_not_spare_children :
  ~ (forall i ep ep',
       (Anime._episodes Examples.grown_show
          ≫= (fun m : gmap Z Episode.t => m !! i)) = Some ep ->
       (Anime._episodes (Anime.set_dirty false Examples.grown_show)
          ≫= (fun m : gmap Z Episode.t => m !! i)) = Some ep' ->
       Episode.dirty ep' = Episode.dirty ep).
Proof.
  intros Hkeep.
  specialize (Hkeep 0 Examples.seen_episode
                (Episode.set_dirty false Examples.seen_episode)).
  assert (Hflags : Episode.dirty (Episode.set_dirty false Examples.seen_episode)
                   = Episode.dirty Examples.seen_episode -> False) by (vm_compute; discriminate).
  apply Hflags, Hkeep; vm_compute; reflexivity.
Qed.

(** ** Sorting and grouping *)

Section sorting_facts.
Context {A K : Type}.
Variable key : A -> K.
Variable ltb : K -> K -> bool.
Hypothesis ltb_asym : forall a b, ltb a b = true -> ltb b a = false.
Hypothesis geb_trans : forall a b c, ltb a b = false -> ltb b c = false -> ltb a c = false.

Lemma insert_desc_perm (x : A) (l : list A) : insert_desc key ltb x l ≡ₚ x :: l.
Proof.
  induction l as [|y l IH]; simpl; [done|].
  destruct (ltb (key x) (key y)); [|done]. rewrite IH. apply perm_swap.
Qed.

Lemma sort_desc_perm (l : list A) : sort_desc key ltb l ≡ₚ l.
Proof.
  induction l as [|x l IH]; simpl; [done|].
  rewrite insert_desc_perm. by f_equiv.
Qed.

Lemma insert_desc_sorted (x : A) (l : list A) :
  StronglySorted (not_below key ltb) l ->
  StronglySorted (not_below key ltb) (insert_desc key ltb x l).
Proof.
  induction 1 as [|y l Hl IH Hy]; simpl.
  - repeat constructor.
  - destruct (ltb (key x) (key y)) eqn:Hxy.
    + constructor; [done|]. rewrite insert_desc_perm. constructor; [|done].
      by apply ltb_asym.
    + constructor; [by constructor|]. constructor; [done|].
      eapply Forall_impl; [exact Hy|]. intros z Hz. by eapply geb_trans.
Qed.

Lemma sort_desc_sorted (l : list A) : StronglySorted (not_below key ltb) (sort_desc key ltb l).
Proof.
  induction l as [|x l IH]; simpl; [constructor|]. by apply insert_desc_sorted.
Qed.
End sorting_facts.

Lemma StronglySorted_weaken {A : Type} (R R' : A -> A -> Prop) (l : list A) :
  (forall x y, R x y -> R' x y) -> StronglySorted R l -> StronglySorted R' l.
Proof.
  intros Himp. induction 1 as [|x l Hl IH Hx]; constructor; [done|].
  eapply Forall_impl; [exact Hx|]. intros y. apply Himp.
Qed.

Lemma sort_desc_priority_sorted (l : list Stream.t) :
  StronglySorted (fun x y => Stream.PRIORITY y <= Stream.PRIORITY x)
                 (sort_desc Stream.PRIORITY Z.ltb l).
Proof.
  eapply StronglySorted_weaken; [|apply (sort_desc_sorted Stream.PRIORITY Z.ltb)].
  - intros x y Hxy. unfold not_below in Hxy. by apply Z.ltb_ge in Hxy.
  - intros a b Hab. apply Z.ltb_lt in Hab. apply Z.ltb_ge. lia.
  - intros a b c Hab Hbc. apply Z.ltb_ge in Hab, Hbc. apply Z.ltb_ge. lia.
Qed.

(** ** Episode.streams *)

Lemma gather_Ok {A : Type} (rs : list (result A)) (xs : list A) :
  gather rs = Ok xs -> rs = Ok <$> xs.
Proof.
  revert xs. induction rs as [|r rs IH]; intros xs Hg; simpl in Hg.
  - by simplify_eq.
  - destruct r as [x|e]; simpl in Hg; [|done].
    destruct (gather rs) as [ys|e]; simpl in Hg; [|done].
    simplify_eq. simpl. f_equal. by apply IH.
Qed.

Section dispatch.
Variable registry : list StreamClass.
Variable host_of : string -> option string.
Variable net : string -> Stream.remote.

Lemma get_stream_first_claiming (providers : list StreamClass) (link : string) r :
  Episode.get_stream host_of providers link = Ok r ->
  r = Episode.first_claiming host_of providers link.
Proof.
  induction providers as [|c cs IH]; simpl; [by intros [= <-]|].
  destruct (Stream.can_handle (cls_HOST c) (host_of link)) as [[]|e]; simpl; try done.
  by intros [= <-].
Qed.

Lemma streams_body_candidates (e : Episode.t) (links : list string) (l : list Stream.t) :
  Episode.raw_streams e = Ok links ->
  Episode.streams_body registry host_of net e = Ok l ->
  l = sort_desc Stream.PRIORITY Z.ltb
        (omap id (imap (fun i link => new_stream i link (net link)
                                        <$> Episode.first_claiming host_of registry link) links)).
Proof.
  intros Hraw. unfold Episode.streams_body. rewrite Hraw. simpl.
  destruct (gather _) as [found|x] eqn:Hfound; simpl; [|done].
  intros [= <-]. do 2 f_equal. apply gather_Ok in Hfound.
  apply list_eq. intros i.
  apply (f_equal (fun l => l !! i)) in Hfound.
  rewrite list_lookup_imap, list_lookup_fmap in Hfound. rewrite list_lookup_imap.
  destruct (links !! i) as [link|]; simpl in *.
  - destruct (Episode.get_stream host_of registry link) as [c|x] eqn:Hc; simpl in Hfound.
    + rewrite <- (get_stream_first_claiming _ _ _ Hc).
      destruct (found !! i); by simplify_eq/=.
    + destruct (found !! i); by simplify_eq/=.
  - by destruct (found !! i).
Qed.
End dispatch.

(** C9: [streams] gives, for the raw embeds of the episode, exactly the
    candidates that the dispatch yields (each link goes to the first
    registered provider whose [can_handle] accepts its host, a link no
    provider claims yields nothing), in descending order of [PRIORITY]; and
    for the embeds ["http://vidstreaming.io/e1"; "http://unknown-host/x"]
    with Vidstreaming as the only provider the list has the single
    candidate of the first link. *)
Theorem streams_dispatches_drops_and_sorts (registry : list StreamClass)
    (host_of : string -> option string) (net : string -> Stream.remote)
    (e : Episode.t) (links : list string) (l : list Stream.t) :
  Episode._streams e = None ->
  Episode.raw_streams e = Ok links ->
  (Episode.streams registry host_of net e).1 = Ok l ->
  l ≡ₚ omap id (imap (fun i link => new_stream i link (net link)
                        <$> Episode.first_claiming host_of registry link) links)
  /\ StronglySorted (fun x y => Stream.PRIORITY y <= Stream.PRIORITY x) l
  /\ (forall x, x ∈ l <->
        exists i link c, links !! i = Some link
          /\ Episode.first_claiming host_of registry link = Some c
          /\ x = new_stream i link (net link) c)
  /\ (Episode.streams [Examples.Vidstreaming] Examples.url_host net Examples.two_embeds).1
     = Ok [new_stream 0 "http://vidstreaming.io/e1" (net "http://vidstreaming.io/e1")
             Examples.Vidstreaming].
Proof.
  intros Hslot Hraw Hl.
  assert (Hbody : Episode.streams_body registry host_of net e = Ok l).
  { revert Hl. unfold Episode.streams, cached_property. rewrite Hslot.
    by destruct (Episode.streams_body registry host_of net e). }
  pose proof (streams_body_candidates registry host_of net e links l Hraw Hbody) as Heq.
  assert (Hperm : l ≡ₚ omap id (imap (fun i link => new_stream i link (net link)
                        <$> Episode.first_claiming host_of registry link) links)).
  { rewrite Heq. apply sort_desc_perm. }
  split_and!.
  - exact Hperm.
  - rewrite Heq. apply sort_desc_priority_sorted.
  - intros x. rewrite Hperm, list_elem_of_omap. split.
    + intros (o & Ho & Hx). apply elem_of_lookup_imap in Ho as (i & link & -> & Hi).
      simpl in Hx. destruct (Episode.first_claiming host_of registry link) as [c|] eqn:Hc;
        simplify_eq/=. by exists i, link, c.
    + intros (i & link & c & Hi & Hc & ->).
      exists (Some (new_stream i link (net link) c)). split; [|done].
      apply elem_of_lookup_imap. exists i, link. by rewrite Hc.
  - reflexivity.
Qed.

Lemma streams_dispatches_drops_and_sorts_witness :
  length <$> Some [new_stream 0 "http://vidstreaming.io/e1" Examples.answers_at_last
                     Examples.Vidstreaming] = Some 1%nat
  /\ [new_stream 0 "http://vidstreaming.io/e1" Examples.answers_at_last Examples.Vidstreaming]
     ≡ₚ omap id (imap (fun i link => new_stream i link Examples.answers_at_last
                         <$> Episode.first_claiming Examples.url_host
                               [Examples.Vidstreaming] link)
                   ["http://vidstreaming.io/e1"; "http://unknown-host/x"]).
Proof.
  split; [reflexivity|].
  apply (streams_dispatches_drops_and_sorts [Examples.Vidstreaming] Examples.url_host
           (fun _ => Examples.answers_at_last) Examples.two_embeds
           ["http://vidstreaming.io/e1"; "http://unknown-host/x"]); reflexivity.
Defined.

(** ** search_anime *)

Lemma Qltb_asym (a b : Q) : Query.Qltb a b = true -> Query.Qltb b a = false.
Proof.
  unfold Query.Qltb. intros Hab. apply negb_true_iff in Hab.
  apply negb_false_iff, Qle_bool_iff, Qlt_le_weak, Qnot_le_lt.
  intros Hba. apply Qle_bool_iff in Hba. congruence.
Qed.

Lemma Qgeb_trans (a b c : Q) :
  Query.Qltb a b = false -> Query.Qltb b c = false -> Query.Qltb a c = false.
Proof.
  unfold Query.Qltb. intros Hab Hbc.
  apply negb_false_iff, Qle_bool_iff in Hab, Hbc.
  apply negb_false_iff, Qle_bool_iff. by eapply Qle_trans.
Qed.

Lemma sort_desc_certainty_sorted (l : list Query.SearchResult) :
  StronglySorted (fun x y => (Query.certainty y <= Query.certainty x)%Q)
                 (sort_desc Query.certainty Query.Qltb l).
Proof.
  eapply StronglySorted_weaken;
    [|apply (sort_desc_sorted Query.certainty Query.Qltb Qltb_asym Qgeb_trans)].
  intros x y Hxy. unfold not_below, Query.Qltb in Hxy.
  by apply negb_false_iff, Qle_bool_iff in Hxy.
Qed.

Lemma StronglySorted_take {A : Type} (R : A -> A -> Prop) (n : nat) (l : list A) :
  StronglySorted R l -> StronglySorted R (take n l).
Proof.
  intros Hl. rewrite <- (take_drop n l) in Hl. by apply StronglySorted_app_1_l in Hl.
Qed.

Section search_facts.
Variable int : string -> option Z.
Variable get_lang : string -> option Query.Language.
Variable fuzzy_bool : string -> option bool.
Variable search : string -> Query.Language -> bool -> list Query.SearchResult.
Variable preload_attrs : Anime.t -> result unit.
Variable args : gmap string string.

Local Abbreviation search_anime :=
  (Query.search_anime int get_lang fuzzy_bool search preload_attrs args).

Lemma build_raises_InvalidRequest e :
  Query.build get_lang fuzzy_bool args = Raise e -> exists msg, e = InvalidRequest msg.
Proof.
  unfold Query.build.
  destruct (Query.try_build_UID args); [done|].
  destruct (Query.try_build_Query get_lang fuzzy_bool args); [done|].
  intros [= <-]. by eexists.
Qed.

(** Up to the check of the count, [search_anime] raises nothing but
    [InvalidRequest]; past it, it has the count in range. *)
Lemma search_anime_cases :
  (exists msg, search_anime = Raise (InvalidRequest msg))
  \/ exists query filters num_results,
       Query._get_int_param int args "results" (Some 1) = Ok num_results
       /\ 0 < num_results <= 20
       /\ search_anime =
            let results :=
              take (Z.to_nat num_results)
                (sort_desc Query.certainty Query.Qltb
                   (take (Z.to_nat (Z.max num_results 3))
                      (search query (Query.language filters) (Query.dubbed filters)))) in
            bind (gather (map (fun r => preload_attrs (Query.anime r)) results))
                 (fun _ => Ok (take (Z.to_nat num_results) results)).
Proof.
  unfold Query.search_anime.
  destruct (Query.build get_lang fuzzy_bool args) as [q|e] eqn:Hq; simpl.
  2:{ left. destruct (build_raises_InvalidRequest e Hq) as [msg ->]. by eexists. }
  destruct q as [uid|title lang dub]; simpl; [left; by eexists|].
  destruct (args !! "anime") as [[|c query]|].
  1,3: (left; by eexists).
  destruct (Query._get_int_param int args "results" (Some 1)) as [n|e] eqn:Hn; simpl.
  2:{ left. revert Hn. unfold Query._get_int_param.
      by destruct (args !! "results" ≫= int). }
  destruct ((0 <? n) && (n <=? 20)) eqn:Hrange; simpl; [|left; by eexists].
  right. apply andb_true_iff in Hrange as [H0 H20].
  apply Z.ltb_lt in H0. apply Z.leb_le in H20.
  exists (String c query),
    {| Query.language := default Query.ENGLISH lang; Query.dubbed := default false dub |}, n.
  split_and!; [done|lia|lia|done].
Qed.
End search_facts.

(** C10: [search_anime] raises [InvalidRequest] whenever the requested
    number of results lies outside 1..20; the number is 1 when the
    parameter is absent; and a list it returns has at most the requested
    number of results, in descending order of certainty. *)
Theorem search_anime_count_in_range_and_sorted (int : string -> option Z)
    (get_lang : string -> option Query.Language) (fuzzy_bool : string -> option bool)
    (search : string -> Query.Language -> bool -> list Query.SearchResult)
    (preload_attrs : Anime.t -> result unit) (args : gmap string string) :
  (forall n, (args !! "results" ≫= int) = Some n -> ~ (1 <= n <= 20) ->
     exists msg, Query.search_anime int get_lang fuzzy_bool search preload_attrs args
                 = Raise (InvalidRequest msg))
  /\ (args !! "results" = None ->
      Query._get_int_param int args "results" (Some 1) = Ok 1)
  /\ (forall results,
        Query.search_anime int get_lang fuzzy_bool search preload_attrs args = Ok results ->
        exists n, Query._get_int_param int args "results" (Some 1) = Ok n
                  /\ 1 <= n <= 20
                  /\ Z.of_nat (length results) <= n
                  /\ StronglySorted
                       (fun x y => (Query.certainty y <= Query.certainty x)%Q) results).
Proof.
  pose proof (search_anime_cases int get_lang fuzzy_bool search preload_attrs args) as Hcases.
  split_and!.
  - intros n Hn Hout. destruct Hcases as [Hraise|(q & f & n' & Hn' & Hrange & _)]; [done|].
    unfold Query._get_int_param in Hn'. rewrite Hn in Hn'. simplify_eq. lia.
  - intros Habsent. unfold Query._get_int_param. by rewrite Habsent.
  - intros results Hres. destruct Hcases as [[msg Hraise]|(q & f & n & Hn & Hrange & Heq)];
      [congruence|].
    rewrite Heq in Hres. simpl in Hres.
    destruct (gather _) as [u|e]; simpl in Hres; [|done]. simplify_eq.
    exists n. split_and!; [done|lia|lia| |].
    + rewrite !length_take. lia.
    + do 2 apply StronglySorted_take. apply sort_desc_certainty_sorted.
Qed.

Lemma search_anime_count_in_range_and_sorted_witness :
  (exists msg, Query.search_anime Query.decimal Examples.no_language Examples.no_bool
                 Examples.found_three Examples.preloaded Examples.too_many
               = Raise (InvalidRequest msg))
  /\ exists n, Query._get_int_param Query.decimal Examples.two_results "results" (Some 1) = Ok n
               /\ Z.of_nat (length [Examples.hit (93 # 100); Examples.hit (71 # 100)]) <= n.
Proof.
  split.
  - apply (proj1 (search_anime_count_in_range_and_sorted Query.decimal Examples.no_language
                    Examples.no_bool Examples.found_three Examples.preloaded
                    Examples.too_many) 21); [reflexivity|lia].
  - destruct (proj2 (proj2 (search_anime_count_in_range_and_sorted Query.decimal
                Examples.no_language Examples.no_bool Examples.found_three
                Examples.preloaded Examples.two_results))
                [Examples.hit (93 # 100); Examples.hit (71 # 100)])
      as (n & Hn & _ & Hlen & _); [vm_compute; reflexivity|].
    exists n. split; [exact Hn|exact Hlen].
Defined.

(** ** Episode.stream *)

Lemma groupby_concat {A K : Type} (key : A -> K) (eqb : K -> K -> bool) (l : list A) :
  concat (snd <$> groupby key eqb l) = l.
Proof.
  induction l as [|x l IH]; simpl; [done|].
  destruct (groupby key eqb l) as [|[k g] gs]; simpl in *.
  - by rewrite <- IH.
  - destruct (eqb (key x) k); simpl; by rewrite <- IH.
Qed.

Lemma working_external_self_is_self (x : Stream.t) (w : nat) :
  (Stream.working_external_self x).1 = Ok (Some w) -> w = Stream.sid x.
Proof.
  unfold Stream.working_external_self.
  destruct (Stream.external (Stream.site x)) as [[]|e]; simpl; try done.
  destruct (Stream.working x) as [[[]|e] x']; simpl; try done. by intros [= <-].
Qed.

Section stream_facts.
Context {L : Type}.
Variable wait : L -> list (Race.task (option nat))
                -> list (Race.task (option nat)) * list (Race.task (option nat)) * L.
Variable clock : L -> nat.
Hypothesis wait_ok : Race.wait_spec wait.

(** The winner of a race over the validations of streams with distinct
    identities is none of the validations that were cancelled. *)
Lemma winner_not_cancelled (s : L) (g : list Stream.t) sel s' (w : nat) :
  NoDup (Stream.sid <$> g) ->
  Race.get_first wait Episode.found_one s (Episode.validation (clock s) <$> g)
    = Some (sel, s') ->
  Race.value sel = Ok (Some (Some w)) ->
  w ∉ Race.tid <$> Race.cancelled sel.
Proof.
  intros Hnd Hrun Hv.
  destruct (get_first_loop_winner wait Episode.found_one wait_ok _ _ _ _ _ _ Hrun Hv)
    as [(t & s0 & Hin & Hex & Ht & _) Hc].
  pose proof (get_first_loop_accounts wait Episode.found_one wait_ok _ _ _ _ _ Hrun) as Hacc.
  rewrite <- Hc in Hacc.
  assert (Htid : Race.tid t = w).
  { apply list_elem_of_fmap in Hin as (x & -> & _). simpl in *.
    symmetry. by apply working_external_self_is_self. }
  assert (Hnd' : NoDup (Race.tid <$> (Race.examined sel ++ Race.unread sel ++ Race.cancelled sel))).
  { rewrite Hacc, <- list_fmap_compose. exact Hnd. }
  rewrite fmap_app in Hnd'. apply NoDup_app in Hnd' as (_ & Hdisj & _).
  intros Hw. apply (Hdisj w).
  - rewrite <- Htid. by apply list_elem_of_fmap_2.
  - rewrite fmap_app. apply elem_of_app. by right.
Qed.

Lemma race_groups_winner_not_cancelled (groups : list (Z * list Stream.t)) :
  forall s sels s' (w : nat),
    NoDup (Stream.sid <$> concat (snd <$> groups)) ->
    Episode.race_groups wait clock s groups = Some (Ok (Some w), sels, s') ->
    w ∉ Race.tid <$> concat (Race.cancelled <$> sels).
Proof.
  induction groups as [|[p g] rest IH]; intros s sels s' w Hnd Hrun; simpl in Hrun;
    [by simplify_eq|].
  simpl in Hnd. rewrite fmap_app in Hnd. apply NoDup_app in Hnd as (Hg & _ & Hrest).
  destruct (Race.get_first wait Episode.found_one s (map (Episode.validation (clock s)) g))
    as [[sel s1]|] eqn:Hrace; [|done].
  destruct (Race.value sel) as [[[w0|]|]|e] eqn:Hv.
  - simplify_eq. simpl. rewrite app_nil_r.
    eapply winner_not_cancelled; [exact Hg|exact Hrace|exact Hv].
  - destruct (get_first_loop_winner wait Episode.found_one wait_ok _ _ _ _ _ _ Hrace Hv)
      as [(t & s0 & _ & _ & _ & Hp) _]. done.
  - destruct (Episode.race_groups wait clock s1 rest) as [[[r sels0] s2]|] eqn:Hrec;
      simplify_eq/=.
    destruct (get_first_loop_nothing wait Episode.found_one wait_ok _ _ _ _ _ Hrace Hv)
      as (_ & -> & _). simpl. by eapply IH.
  - by simplify_eq.
Qed.
End stream_facts.

Section fallback.
Context {L : Type}.
Variable wait : L -> list (Race.task (option nat))
                -> list (Race.task (option nat)) * list (Race.task (option nat)) * L.
Variable clock : L -> nat.
Hypothesis wait_ok : Race.wait_spec wait.

(** A group none of whose candidates passes the validation yields
    nothing, and every validation of the group ran to its end. *)
Lemma failed_group_yields_nothing (s : L) (g : list Stream.t) :
  (forall x, x ∈ g -> (Stream.working_external_self x).1 = Ok None) ->
  exists sel s1,
    Race.get_first wait Episode.found_one s (Episode.validation (clock s) <$> g)
      = Some (sel, s1)
    /\ Race.value sel = Ok None
    /\ Race.examined sel ++ Race.unread sel ≡ₚ Episode.validation (clock s) <$> g.
Proof.
  intros Hfail.
  destruct (get_first_total wait Episode.found_one wait_ok s
              (Episode.validation (clock s) <$> g)) as [[sel s1] Hrun].
  assert (Hv : Race.value sel = Ok None).
  { eapply (get_first_loop_all_fail wait Episode.found_one wait_ok); [|exact Hrun].
    intros t (x & -> & Hx)%list_elem_of_fmap. exists None. split; [by apply Hfail|done]. }
  destruct (get_first_loop_nothing wait Episode.found_one wait_ok _ _ _ _ _ Hrun Hv)
    as (Hout & _ & _).
  pose proof (get_first_loop_accounts wait Episode.found_one wait_ok _ _ _ _ _ Hrun) as Hacc.
  rewrite Hout, app_nil_r in Hacc. by exists sel, s1.
Qed.

(** A group of one candidate that passes the validation yields it. *)
Lemma single_candidate_wins (s : L) (c : Stream.t) :
  (Stream.working_external_self c).1 = Ok (Some (Stream.sid c)) ->
  exists sel s1,
    Race.get_first wait Episode.found_one s [Episode.validation (clock s) c]
      = Some (sel, s1)
    /\ Race.value sel = Ok (Some (Some (Stream.sid c))).
Proof.
  intros Hpass. unfold Race.get_first. simpl.
  destruct (wait s [Episode.validation (clock s) c]) as [[done pending] s1] eqn:Hw.
  destruct (wait_split wait wait_ok _ _ _ _ _ _ Hw) as [Hne Hp].
  destruct done as [|d rest]; [done|].
  assert (Hd : d = Episode.validation (clock s) c /\ rest = [] /\ pending = []).
  { apply Permutation_length in Hp as Hlen. rewrite length_app in Hlen. simpl in Hlen.
    destruct rest; [|simpl in Hlen; lia]. destruct pending; [|simpl in Hlen; lia].
    split; [|done]. simpl in Hp. by apply Permutation_singleton_inj in Hp. }
  destruct Hd as (-> & -> & ->). simpl. rewrite Hpass. simpl. by eexists _, _.
Qed.

(** The priority law of the specification: priorities [10, 10, 5], both
    candidates of priority 10 fail the validation, the candidate of
    priority 5 passes: [stream] returns the latter, after both validations
    of priority 10 ran to their end. *)
Lemma stream_falls_back_when_higher_group_fails
    (registry : list StreamClass) (host_of : string -> option string)
    (net : string -> Stream.remote) (s : L) (e : Episode.t) (a b c : Stream.t) :
  Episode._streams e = Some [a; b; c] -> Episode._stream e = None ->
  Stream.PRIORITY a = 10 -> Stream.PRIORITY b = 10 -> Stream.PRIORITY c = 5 ->
  (Stream.working_external_self a).1 = Ok None ->
  (Stream.working_external_self b).1 = Ok None ->
  (Stream.working_external_self c).1 = Ok (Some (Stream.sid c)) ->
  exists sel sels s' e',
    Episode.stream registry host_of net wait clock s e
      = Some (Ok (Some (Stream.sid c)), sel :: sels, s', e')
    /\ Race.examined sel ++ Race.unread sel
       ≡ₚ [Episode.validation (clock s) a; Episode.validation (clock s) b]
    /\ Episode._stream e' = Some (Some (Stream.sid c)).
Proof.
  intros Hall Hslot Ha Hb Hc Hfa Hfb Hpc.
  unfold Episode.stream, Episode.stream_body, Episode.streams, cached_property.
  rewrite Hslot, Hall.
  assert (Hsort : sort_desc Stream.PRIORITY Z.ltb [a; b; c] = [a; b; c]).
  { unfold sort_desc. cbn [foldr insert_desc]. rewrite Hb, Hc.
    cbn [Z.ltb Z.compare Pos.compare Pos.compare_cont insert_desc].
    by rewrite Ha, Hb. }
  rewrite Hsort.
  assert (Hgroups : groupby Stream.PRIORITY Z.eqb [a; b; c] = [(10, [a; b]); (5, [c])]).
  { cbn [groupby]. rewrite Hb, Hc. cbn [Z.eqb Pos.eqb]. by rewrite Ha. }
  rewrite Hgroups. simpl.
  destruct (failed_group_yields_nothing s [a; b]) as (sel & s1 & Hrun & Hv & Hacc).
  { intros x [->|[->|[]%elem_of_nil]%elem_of_cons]%elem_of_cons; done. }
  simpl in Hrun. rewrite Hrun, Hv.
  destruct (single_candidate_wins s1 c Hpc) as (sel2 & s2 & Hrun2 & Hv2).
  rewrite Hrun2, Hv2. simpl. by eexists sel, [sel2], s2, _.
Qed.
End fallback.

(** C2 (defect, the one of C1): priorities [10, 10, 5], the second
    candidate of priority 10 and the candidate of priority 5 pass the
    validation, the first candidate does not, and the two of priority 10
    complete in the same tick. [get_first] reads the failed validation only,
    the group of priority 10 yields nothing, and [stream] returns (and
    keeps in [_stream]) the candidate of priority 5 although a candidate of
    priority 10 passed. *)
Theorem stream_passes_over_working_higher_priority :
  match Episode.stream [] Examples.nowhere Examples.offline Race.asyncio_wait id 0%nat
                       Examples.contested with
  | Some (answer, sels, _, e') =>
    answer = Ok (Some 2%nat)
    /\ Episode._stream e' = Some (Some 2%nat)
    /\ (fun sel => (Race.tid <$> Race.examined sel, Race.tid <$> Race.unread sel)) <$> sels
       = [([0%nat], [1%nat]); ([2%nat], [])]
  | None => False
  end
  /\ (Stream.working_external_self
        (Examples.candidate 1 10 1 ["http://cdn.example/b.mp4"])).1 = Ok (Some 1%nat)
  /\ Stream.PRIORITY (Examples.candidate 2 5 1 ["http://cdn.example/c.mp4"])
     < Stream.PRIORITY (Examples.candidate 1 10 1 ["http://cdn.example/b.mp4"]).
Proof. vm_compute. split_and!; reflexivity. Qed.

(** C3: when [get_first] returns a winner, the computations it cancelled
    are exactly those still outstanding, and every computation handed in
    was read, sat unread in a [done] set, or was cancelled; and once
    [stream] has returned a winner and kept it in [_stream], the completions
    of the cancelled validations, wherever they were suspended, leave
    [_stream] as it is, the winner is none of them, and the winner's stream
    object stays as it was. *)
Theorem get_first_cancels_outstanding_and_winner_stays {T L : Type}
    (wait : L -> list (Race.task T) -> list (Race.task T) * list (Race.task T) * L)
    (predicate : T -> L -> bool * L)
    (waitS : L -> list (Race.task (option nat))
             -> list (Race.task (option nat)) * list (Race.task (option nat)) * L)
    (clock : L -> nat) (registry : list StreamClass)
    (host_of : string -> option string) (net : string -> Stream.remote) :
  Race.wait_spec wait -> Race.wait_spec waitS ->
  (forall s coros sel s' v,
     Race.get_first wait predicate s coros = Some (sel, s') ->
     Race.value sel = Ok (Some v) ->
     Race.cancelled sel = Race.outstanding sel
     /\ Race.examined sel ++ Race.unread sel ++ Race.cancelled sel ≡ₚ coros
     /\ exists t, t ∈ Race.examined sel /\ Race.outcome t = Ok v)
  /\ (forall s e w sels s' e',
        (forall l, (Episode.streams registry host_of net e).1 = Ok l ->
                   NoDup (Stream.sid <$> l)) ->
        Episode.stream registry host_of net waitS clock s e
          = Some (Ok (Some w), sels, s', e') ->
        forall where_,
          Episode._stream
            (Episode.land_cancelled where_
               (Race.tid <$> concat (Race.cancelled <$> sels)) e') = Some (Some w)
          /\ (w ∉ Race.tid <$> concat (Race.cancelled <$> sels))
          /\ forall l' x,
               Episode._streams e' = Some l' -> x ∈ l' -> Stream.sid x = w ->
               exists l'',
                 Episode._streams
                   (Episode.land_cancelled where_
                      (Race.tid <$> concat (Race.cancelled <$> sels)) e') = Some l''
                 /\ x ∈ l'').
Proof.
  intros Hwait HwaitS. split.
  - intros s coros sel s' v Hrun Hv.
    destruct (get_first_loop_winner wait predicate Hwait _ _ _ _ _ _ Hrun Hv)
      as [(t & s0 & _ & Hex & Ht & _) Hc].
    pose proof (get_first_loop_accounts wait predicate Hwait _ _ _ _ _ Hrun) as Hacc.
    split_and!; [done|by rewrite Hc|by exists t].
  - intros s e w sels s' e' Hids Hrun where_.
    assert (Hw : (w ∉ Race.tid <$> concat (Race.cancelled <$> sels))
                 /\ Episode._stream e' = Some (Some w)).
    { revert Hrun. unfold Episode.stream.
      destruct (Episode._stream e) as [w0|] eqn:Hslot.
      { intros [= -> <- _ <-]. split; [|done]. simpl. by intros ?%elem_of_nil. }
      unfold Episode.stream_body.
      destruct (Episode.streams registry host_of net e) as [[all|x] e1] eqn:Hall;
        [|by intros [=]].
      specialize (Hids all eq_refl).
      destruct (Episode.race_groups waitS clock s _) as [[[r sels0] s1]|] eqn:Hrace;
        [|by intros [=]].
      destruct r as [w0|x]; intros [= -> <- _ <-]. split; [|done].
      eapply race_groups_winner_not_cancelled; [exact HwaitS| |exact Hrace].
      rewrite groupby_concat, sort_desc_perm. exact Hids. }
    destruct Hw as [Hw Hslot]. split_and!; [by simpl|exact Hw|].
    intros l' x Hl' Hx Hsid. simpl. rewrite Hl'. simpl. eexists. split; [done|].
    apply list_elem_of_fmap. exists x. split; [|done].
    rewrite bool_decide_eq_false_2; [done|]. by rewrite Hsid.
Qed.

Lemma get_first_cancels_outstanding_and_winner_stays_witness :
  exists sels e',
    (fun r => (r.1.1.1, r.1.1.2, r.2)) <$>
      Episode.stream [] Examples.nowhere Examples.offline Race.asyncio_wait id 0%nat
                     Examples.raced
    = Some (Ok (Some 0%nat), sels, e')
    /\ Race.tid <$> concat (Race.cancelled <$> sels) = [1%nat]
    /\ Episode._stream
         (Episode.land_cancelled (fun _ => Episode.AwaitLinks)
            (Race.tid <$> concat (Race.cancelled <$> sels)) e') = Some (Some 0%nat).
Proof.
  destruct (Episode.stream [] Examples.nowhere Examples.offline Race.asyncio_wait id 0%nat
              Examples.raced) as [[[[answer sels] s'] e']|] eqn:Hrun;
    vm_compute in Hrun; [|discriminate].
  injection Hrun as Hanswer Hsels Hs' He'.
  exists sels, e'. split_and!.
  - simpl. by rewrite <- Hanswer.
  - by rewrite <- Hsels.
  - apply (proj2 (get_first_cancels_outstanding_and_winner_stays
                    (T := option nat) Race.asyncio_wait Episode.found_one Race.asyncio_wait
                    id [] Examples.nowhere Examples.offline asyncio_wait_ok asyncio_wait_ok)
             0%nat Examples.raced 0%nat sels s' e').
    + intros l [= <-]. apply (bool_decide_unpack _). vm_compute. exact I.
    + rewrite <- Hsels, <- Hs', <- He'. vm_compute. reflexivity.
Defined.

(** * Further properties *)

(** ** The race selector under any event loop *)

Section race_more.
Context {T L : Type}.
Variable wait : L -> list (Race.task T) -> list (Race.task T) * list (Race.task T) * L.
Variable predicate : T -> L -> bool * L.
Hypothesis wait_ok : Race.wait_spec wait.

Local Abbreviation loop := (Race.get_first_loop wait predicate).

Lemma get_first_loop_raise fuel s coros sel s' e :
  loop fuel s coros = Some (sel, s') ->
  Race.value sel = Raise e ->
  Race.cancelled sel = []
  /\ exists t, t ∈ coros /\ t ∈ Race.examined sel /\ Race.outcome t = Raise e.
Proof.
  revert s coros sel s'. induction fuel as [|fuel IH]; intros s [|c coros] sel s' Hrun Hv;
    simpl in Hrun; try (by simplify_eq).
  destruct (wait s (c :: coros)) as [[done pending] s1] eqn:Hw.
  destruct done as [|d rest].
  { apply (wait_split wait wait_ok) in Hw as [Hd _]. by destruct Hd. }
  apply (wait_split wait wait_ok) in Hw as [_ Hp].
  destruct (Race.outcome d) as [res|e0] eqn:Hd.
  - destruct (predicate res s1) as [[] s2] eqn:Hpred; [by simplify_eq|].
    destruct (loop fuel s2 pending) as [[sel0 s0]|] eqn:Hrec;
      unfold Race.note in Hrun; simplify_eq/=.
    destruct (IH _ _ _ _ Hrec Hv) as (Hc & t & Hin & Hex & Ht).
    split; [done|]. exists t. split_and!; [|by apply list_elem_of_further|done].
    rewrite <- Hp. apply list_elem_of_further, elem_of_app. by right.
  - simplify_eq/=. split; [done|]. exists d. split_and!; [|apply list_elem_of_here|done].
    rewrite <- Hp. apply list_elem_of_here.
Qed.



Lemma get_first_loop_unread_none fuel s coros sel s' :
  one_done_at_a_time wait ->
  loop fuel s coros = Some (sel, s') -> Race.unread sel = [].
Proof.
  intros Hone. revert s coros sel s'.
  induction fuel as [|fuel IH]; intros s [|c coros] sel s' Hrun;
    simpl in Hrun; try (by simplify_eq).
  pose proof (Hone s (c :: coros)) as Hlen.
  destruct (wait s (c :: coros)) as [[done pending] s1] eqn:Hw. simpl in Hlen.
  destruct done as [|d rest].
  { apply (wait_split wait wait_ok) in Hw as [Hd _]. by destruct Hd. }
  destruct rest; [|simpl in Hlen; lia].
  destruct (Race.outcome d) as [res|e0] eqn:Hd; [|by simplify_eq].
  destruct (predicate res s1) as [[] s2] eqn:Hpred; [by simplify_eq|].
  destruct (loop fuel s2 pending) as [[sel0 s0]|] eqn:Hrec;
    unfold Race.note in Hrun; simplify_eq/=. by eapply IH.
Qed.
End race_more.

Lemma sequential_wait_ok {T : Type} : Race.wait_spec (@sequential_wait T).
Proof. intros s [|t ts] Hne; [done|]. by split. Qed.

Lemma sequential_wait_one {T : Type} : one_done_at_a_time (@sequential_wait T).
Proof. intros s [|t ts]; simpl; lia. Qed.

(** X1: whatever the event loop does, a value [get_first] returns is the
    result of one of the computations handed in, and the predicate held on
    it. *)
Theorem get_first_returns_satisfying_result {T L : Type}
    (wait : L -> list (Race.task T) -> list (Race.task T) * list (Race.task T) * L)
    (predicate : T -> L -> bool * L) (s : L) (coros : list (Race.task T))
    (sel : Race.selection T) (s' : L) (v : T) :
  Race.wait_spec wait ->
  Race.get_first wait predicate s coros = Some (sel, s') ->
  Race.value sel = Ok (Some v) ->
  exists t s0, t ∈ coros /\ Race.outcome t = Ok v /\ (predicate v s0).1 = true.
Proof.
  intros Hwait Hrun Hv.
  destruct (get_first_loop_winner wait predicate Hwait _ _ _ _ _ _ Hrun Hv)
    as [(t & s0 & Hin & _ & Ht & Hp) _].
  by exists t, s0.
Qed.

Lemma get_first_returns_satisfying_result_witness :
  exists t s0, t ∈ MoreExamples.staggered /\ Race.outcome t = Ok 7
               /\ (Race.sync_predicate Examples.truth 7 s0).1 = true.
Proof.
  apply (get_first_returns_satisfying_result Race.asyncio_wait
           (Race.sync_predicate Examples.truth) 0%nat MoreExamples.staggered
           (Race.Selection (Ok (Some 7)) [] [Race.Task 0 1 (Ok 0); Race.Task 1 2 (Ok 7)] [] [])
           2%nat 7).
  - apply asyncio_wait_ok.
  - vm_compute. reflexivity.
  - reflexivity.
Defined.

(** X2: [get_first] comes to an end within one round per computation, and
    every computation handed in is then accounted for once: its result was
    read, it completed without being read, or it is still outstanding. *)
Theorem get_first_ends_and_accounts {T L : Type}
    (wait : L -> list (Race.task T) -> list (Race.task T) * list (Race.task T) * L)
    (predicate : T -> L -> bool * L) (s : L) (coros : list (Race.task T)) :
  Race.wait_spec wait ->
  exists sel s',
    Race.get_first wait predicate s coros = Some (sel, s')
    /\ Race.examined sel ++ Race.unread sel ++ Race.outstanding sel ≡ₚ coros.
Proof.
  intros Hwait.
  destruct (get_first_total wait predicate Hwait s coros) as [[sel s'] Hrun].
  exists sel, s'. split; [done|].
  by eapply (get_first_loop_accounts wait predicate Hwait).
Qed.

Lemma get_first_ends_and_accounts_witness :
  exists sel s',
    Race.get_first Race.asyncio_wait (Race.sync_predicate Examples.truth) 0%nat
                   MoreExamples.failing_first = Some (sel, s')
    /\ Race.examined sel ++ Race.unread sel ++ Race.outstanding sel
       ≡ₚ MoreExamples.failing_first.
Proof.
  apply (get_first_ends_and_accounts Race.asyncio_wait (Race.sync_predicate Examples.truth)
           0%nat MoreExamples.failing_first asyncio_wait_ok).
Defined.



(** X4: in an event loop that hands back one completed computation per
    call of [asyncio.wait], no completed result is left unread, and
    [get_first] returns nothing exactly when every computation completed
    with a result that fails the predicate. *)
Theorem get_first_exact_one_at_a_time {T L : Type}
    (wait : L -> list (Race.task T) -> list (Race.task T) * list (Race.task T) * L)
    (p : T -> bool) (predicate : T -> L -> bool * L) (s : L)
    (coros : list (Race.task T)) (sel : Race.selection T) (s' : L) :
  Race.wait_spec wait -> one_done_at_a_time wait ->
  (forall v s0, (predicate v s0).1 = p v) ->
  Race.get_first wait predicate s coros = Some (sel, s') ->
  Race.unread sel = []
  /\ (Race.value sel = Ok None
      <-> forall t, t ∈ coros -> exists v, Race.outcome t = Ok v /\ p v = false).
Proof.
  intros Hwait Hone Hpure Hrun.
  pose proof (get_first_loop_unread_none wait predicate Hwait _ _ _ _ _ Hone Hrun) as Hun.
  split; [done|]. split.
  - intros Hv t Ht.
    destruct (get_first_loop_nothing wait predicate Hwait _ _ _ _ _ Hrun Hv)
      as (Hout & _ & Hall).
    pose proof (get_first_loop_accounts wait predicate Hwait _ _ _ _ _ Hrun) as Hacc.
    rewrite Hun, Hout, !app_nil_r in Hacc. rewrite <- Hacc in Ht.
    destruct (Hall t Ht) as (v & s0 & Hv' & Hp). exists v. by rewrite <- (Hpure v s0).
  - intros Hall. eapply (get_first_loop_all_fail wait predicate Hwait); [|exact Hrun].
    intros t Ht. destruct (Hall t Ht) as (v & Hv & Hp). exists v. split; [done|].
    intros s0. by rewrite Hpure.
Qed.

Lemma get_first_exact_one_at_a_time_witness :
  Race.value (Race.Selection (T := Z) (Ok (Some 7)) []
                [Race.Task 0 1 (Ok 0); Race.Task 1 1 (Ok 7)] [] []) = Ok None
  <-> forall t, t ∈ Examples.two_at_once ->
        exists v, Race.outcome t = Ok v /\ Examples.truth v = false.
Proof.
  apply (get_first_exact_one_at_a_time sequential_wait Examples.truth
           (Race.sync_predicate Examples.truth) 0%nat Examples.two_at_once _ 2%nat
           sequential_wait_ok sequential_wait_one).
  - reflexivity.
  - vm_compute. reflexivity.
Defined.

(** ** Stream *)

Lemma working_external_self_spec (s : Stream.t) (w : nat) :
  ((Stream.working_external_self s).1 = Ok (Some w)
   <-> w = Stream.sid s /\ Stream.external (Stream.site s) = Ok true
       /\ (Stream.working s).1 = Ok true)
  /\ (Stream.external (Stream.site s) = Ok false ->
      Stream.working_external_self s = (Ok None, s)).
Proof.
  unfold Stream.working_external_self.
  destruct (Stream.external (Stream.site s)) as [[]|e]; simpl.
  - destruct (Stream.working s) as [[[]|e] s']; simpl; split; try done.
    + split; [by intros [= <-]|by intros (-> & _)].
    + split; [done|]. by intros (_ & _ & ?).
    + split; [done|]. by intros (_ & _ & ?).
  - split; [|done]. split; [done|]. by intros (_ & ? & _).
  - split; [|done]. split; [done|]. by intros (_ & ? & _).
Qed.

(** X5: [working_external_self] gives the stream itself exactly when
    [external] is true and [working] is true; for a stream that may not be
    used externally it gives nothing without awaiting [working], so no
    extraction of links is started and the object stays as it is. *)
Theorem working_external_self_iff_external_and_working (s : Stream.t) (w : nat) :
  ((Stream.working_external_self s).1 = Ok (Some w)
   <-> w = Stream.sid s /\ Stream.external (Stream.site s) = Ok true
       /\ (Stream.working s).1 = Ok true)
  /\ (Stream.external (Stream.site s) = Ok false ->
      Stream.working_external_self s = (Ok None, s)).
Proof. apply working_external_self_spec. Qed.

Lemma working_external_self_iff_external_and_working_witness :
  Stream.working_external_self
    (Stream.with_site (Stream.Remote (Ok false) Examples.flaky_fetch 1) Examples.flaky)
  = (Ok None,
     Stream.with_site (Stream.Remote (Ok false) Examples.flaky_fetch 1) Examples.flaky).
Proof.
  apply (proj2 (working_external_self_iff_external_and_working
                  (Stream.with_site (Stream.Remote (Ok false) Examples.flaky_fetch 1)
                     Examples.flaky) 0%nat)).
  reflexivity.
Defined.

Lemma lstrip_head (chars s : string) :
  match lstrip chars s with
  | EmptyString => True
  | String c _ => occurs c chars = false
  end.
Proof.
  induction s as [|c s IH]; simpl; [done|].
  destruct (occurs c chars) eqn:Hc; [done|]. simpl. done.
Qed.

(** X6: [can_handle] strips from the host every leading character that
    occurs in "www.", not the prefix "www.". For a provider whose [HOST]
    starts with another character, the host itself and the host behind
    "www." are both accepted; a provider whose [HOST] starts with "w" or "."
    accepts no host at all. *)
Theorem can_handle_strips_leading_w_and_dot (c : ascii) (H host : string) :
  (occurs c "www." = false ->
   Stream.can_handle (Some (String c H)) (Some (String c H)) = Ok true
   /\ Stream.can_handle (Some (String c H)) (Some ("www." +:+ String c H)) = Ok true)
  /\ (occurs c "www." = true ->
      Stream.can_handle (Some (String c H)) (Some host) = Ok false).
Proof.
  split.
  - intros Hc. unfold Stream.can_handle.
    assert (Hs : lstrip "www." (String c H) = String c H) by (cbn [lstrip]; by rewrite Hc).
    split.
    + rewrite Hs. by rewrite String.eqb_refl.
    + change ("www." +:+ String c H) with
        (String "w" (String "w" (String "w" (String "." (String c H))))).
      change (lstrip "www." (String "w" (String "w" (String "w" (String "." (String c H))))))
        with (lstrip "www." (String c H)).
      rewrite Hs. by rewrite String.eqb_refl.
  - intros Hc. unfold Stream.can_handle. f_equal.
    destruct (String.eqb (lstrip "www." host) (String c H)) eqn:Heq; [|done].
    apply String.eqb_eq in Heq. pose proof (lstrip_head "www." host) as Hhead.
    rewrite Heq in Hhead. congruence.
Qed.

Lemma can_handle_strips_leading_w_and_dot_witness :
  (Stream.can_handle (Some "vidstreaming.io") (Some "vidstreaming.io") = Ok true
   /\ Stream.can_handle (Some "vidstreaming.io") (Some ("www." +:+ "vidstreaming.io")) = Ok true)
  /\ Stream.can_handle (Some "watch.example") (Some "watch.example") = Ok false.
Proof.
  split.
  - apply (proj1 (can_handle_strips_leading_w_and_dot "v" "idstreaming.io" "")).
    reflexivity.
  - apply (proj2 (can_handle_strips_leading_w_and_dot "w" "atch.example" "watch.example")).
    reflexivity.
Defined.

(** ** Episode *)

Lemma StronglySorted_lookup {A : Type} (R : A -> A -> Prop) (l : list A)
    (i j : nat) (x y : A) :
  StronglySorted R l -> (i < j)%nat -> l !! i = Some x -> l !! j = Some y -> R x y.
Proof.
  intros Hl Hij Hi Hj. rewrite <- (take_drop j l) in Hl.
  eapply StronglySorted_app_1_elem_of; [exact Hl| |].
  - apply list_elem_of_lookup. exists i. by rewrite lookup_take_lt.
  - apply list_elem_of_lookup. exists 0%nat. rewrite lookup_drop. by rewrite Nat.add_0_r.
Qed.

Lemma streams_first_read (registry : list StreamClass) (host_of : string -> option string)
    (net : string -> Stream.remote) (e : Episode.t) (l : list Stream.t) :
  Episode._streams e = None ->
  (Episode.streams registry host_of net e).1 = Ok l ->
  StronglySorted (fun x y => Stream.PRIORITY y <= Stream.PRIORITY x) l
  /\ (Episode.streams registry host_of net e).2 = Episode.with_streams l e.
Proof.
  intros Hslot. unfold Episode.streams, cached_property. rewrite Hslot.
  destruct (Episode.streams_body registry host_of net e) as [l0|x] eqn:Hbody; simpl; [|done].
  intros [= ->]. split; [|done].
  revert Hbody. unfold Episode.streams_body.
  destruct (Episode.raw_streams e) as [links|x]; simpl; [|done].
  destruct (gather _) as [found|x]; simpl; [|done].
  intros [= <-]. apply sort_desc_priority_sorted.
Qed.

(** X7: the candidates of an episode are numbered by descending priority:
    of two streams [get] returns, the one at the smaller index has at least
    the priority of the other, so index 0 is a candidate of the highest
    priority. *)
Theorem get_numbers_by_descending_priority (registry : list StreamClass)
    (host_of : string -> option string) (net : string -> Stream.remote)
    (e : Episode.t) (i j : Z) (x y : Stream.t) :
  Episode._streams e = None ->
  i <= j ->
  (Episode.get registry host_of net i e).1 = Ok x ->
  (Episode.get registry host_of net j e).1 = Ok y ->
  Stream.PRIORITY y <= Stream.PRIORITY x.
Proof.
  intros Hslot Hij Hx Hy.
  destruct (Episode.streams registry host_of net e) as [[l|err] e'] eqn:Hl.
  2:{ unfold Episode.get in Hx. by rewrite Hl in Hx. }
  assert (Hl1 : (Episode.streams registry host_of net e).1 = Ok l) by by rewrite Hl.
  destruct (streams_first_read _ _ _ _ _ Hslot Hl1) as [Hsorted _].
  assert (Hin : forall k z, (Episode.get registry host_of net k e).1 = Ok z ->
                  0 <= k /\ l !! Z.to_nat k = Some z).
  { intros k z Hz. destruct (episode_get_spec _ _ _ _ _ k Hl1) as [Hout Hhit].
    destruct (decide (0 <= k < Z.of_nat (length l))) as [Hk|Hk].
    - destruct (Hhit Hk) as (z' & Hz' & Hget). split; [lia|]. congruence.
    - apply Hout in Hk. congruence. }
  destruct (Hin i x Hx) as [Hi Hlx]. destruct (Hin j y Hy) as [Hj Hly].
  destruct (decide (i = j)) as [->|Hne]; [assert (x = y) by congruence; subst; lia|].
  apply (StronglySorted_lookup (fun x y => Stream.PRIORITY y <= Stream.PRIORITY x) l
           (Z.to_nat i) (Z.to_nat j)); [done|lia|done..].
Qed.

Lemma get_numbers_by_descending_priority_witness :
  Stream.PRIORITY (new_stream 0 "http://mirror.example/a" Examples.answers_at_last
                     MoreExamples.Mirror)
  <= Stream.PRIORITY (new_stream 1 "http://vidstreaming.io/e1" Examples.answers_at_last
                        Examples.Vidstreaming).
Proof.
  apply (get_numbers_by_descending_priority [Examples.Vidstreaming; MoreExamples.Mirror]
           Examples.url_host Examples.offline MoreExamples.mixed_embeds 0 1);
    [reflexivity|lia|reflexivity..].
Defined.

Section stream_more.
Context {L : Type}.
Variable wait : L -> list (Race.task (option nat))
                -> list (Race.task (option nat)) * list (Race.task (option nat)) * L.
Variable clock : L -> nat.
Hypothesis wait_ok : Race.wait_spec wait.

Local Abbreviation race := (Episode.race_groups wait clock).

Lemma race_groups_winner_is_candidate (groups : list (Z * list Stream.t)) :
  forall s sels s' (w : nat),
    race s groups = Some (Ok (Some w), sels, s') ->
    exists x, x ∈ concat (snd <$> groups)
              /\ (Stream.working_external_self x).1 = Ok (Some w).
Proof.
  induction groups as [|[p g] rest IH]; intros s sels s' w Hrun; simpl in Hrun;
    [by simplify_eq|].
  destruct (Race.get_first wait Episode.found_one s (map (Episode.validation (clock s)) g))
    as [[sel s1]|] eqn:Hrace; [|done].
  destruct (Race.value sel) as [[[w0|]|]|e] eqn:Hv.
  - simplify_eq.
    destruct (get_first_loop_winner wait Episode.found_one wait_ok _ _ _ _ _ _ Hrace Hv)
      as [(t & s0 & Hin & _ & Ht & _) _].
    apply list_elem_of_fmap in Hin as (x & -> & Hx). exists x. split; [|done].
    simpl. apply elem_of_app. by left.
  - destruct (get_first_loop_winner wait Episode.found_one wait_ok _ _ _ _ _ _ Hrace Hv)
      as [(t & s0 & _ & _ & _ & Hp) _]. done.
  - destruct (race s1 rest) as [[[r sels0] s2]|] eqn:Hrec; simplify_eq/=.
    destruct (IH _ _ _ _ Hrec) as (x & Hx & Hpass). exists x. split; [|done].
    apply elem_of_app. by right.
  - by simplify_eq.
Qed.

Lemma race_groups_never_raises (groups : list (Z * list Stream.t)) :
  forall s,
    (forall x, x ∈ concat (snd <$> groups) ->
       exists r, (Stream.working_external_self x).1 = Ok r) ->
    exists answer sels s', race s groups = Some (Ok answer, sels, s').
Proof.
  induction groups as [|[p g] rest IH]; intros s Hok; simpl; [by eexists _, _, _|].
  simpl in Hok.
  destruct (get_first_total wait Episode.found_one wait_ok s
              (Episode.validation (clock s) <$> g)) as [[sel s1] Hrace].
  change (Episode.validation (clock s) <$> g) with (map (Episode.validation (clock s)) g)
    in Hrace.
  rewrite Hrace.
  destruct (Race.value sel) as [[[w0|]|]|e] eqn:Hv.
  - by eexists _, _, _.
  - destruct (IH s1) as (answer & sels & s' & Hrec).
    { intros x Hx. apply Hok, elem_of_app. by right. }
    rewrite Hrec. by eexists _, _, _.
  - destruct (IH s1) as (answer & sels & s' & Hrec).
    { intros x Hx. apply Hok, elem_of_app. by right. }
    rewrite Hrec. by eexists _, _, _.
  - destruct (get_first_loop_raise wait Episode.found_one wait_ok _ _ _ _ _ _ Hrace Hv)
      as (_ & t & Hin & _ & Ht).
    apply list_elem_of_fmap in Hin as (x & -> & Hx).
    destruct (Hok x) as [r Hr]; [apply elem_of_app; by left|].
    simpl in Ht. congruence.
Qed.

Lemma race_groups_all_fail (groups : list (Z * list Stream.t)) :
  forall s,
    (forall x, x ∈ concat (snd <$> groups) ->
       (Stream.working_external_self x).1 = Ok None) ->
    exists sels s', race s groups = Some (Ok None, sels, s').
Proof.
  induction groups as [|[p g] rest IH]; intros s Hfail; simpl; [by eexists _, _|].
  simpl in Hfail.
  destruct (failed_group_yields_nothing wait clock wait_ok s g) as (sel & s1 & Hrace & Hv & _).
  { intros x Hx. apply Hfail, elem_of_app. by left. }
  change (Episode.validation (clock s) <$> g) with (map (Episode.validation (clock s)) g)
    in Hrace.
  rewrite Hrace, Hv.
  destruct (IH s1) as (sels & s' & Hrec).
  { intros x Hx. apply Hfail, elem_of_app. by right. }
  rewrite Hrec. by eexists _, _.
Qed.
End stream_more.

Lemma stream_first_read {L : Type}
    (wait : L -> list (Race.task (option nat))
            -> list (Race.task (option nat)) * list (Race.task (option nat)) * L)
    (clock : L -> nat) (registry : list StreamClass) (host_of : string -> option string)
    (net : string -> Stream.remote) (s : L) (e e1 : Episode.t) (l : list Stream.t) :
  Episode._stream e = None ->
  Episode.streams registry host_of net e = (Ok l, e1) ->
  Episode.stream registry host_of net wait clock s e
  = match Episode.race_groups wait clock s
            (groupby Stream.PRIORITY Z.eqb (sort_desc Stream.PRIORITY Z.ltb l)) with
    | None => None
    | Some (Ok w, sels, s') =>
      Some (Ok w, sels, s',
            Episode.with_stream w
              (Episode.with_streams
                 (Episode.settle sels (sort_desc Stream.PRIORITY Z.ltb l)) e1))
    | Some (Raise x, sels, s') =>
      Some (Raise x, sels, s',
            Episode.with_streams
              (Episode.settle sels (sort_desc Stream.PRIORITY Z.ltb l)) e1)
    end.
Proof.
  intros Hslot Hl. unfold Episode.stream, Episode.stream_body. rewrite Hslot, Hl.
  destruct (Episode.race_groups _ _ _ _) as [[[[w|x] sels] s']|]; done.
Qed.

Lemma sorted_groups_hold (l : list Stream.t) (x : Stream.t) :
  x ∈ concat (snd <$> groupby Stream.PRIORITY Z.eqb (sort_desc Stream.PRIORITY Z.ltb l))
  <-> x ∈ l.
Proof. by rewrite groupby_concat, sort_desc_perm. Qed.

(** X8: whatever the event loop does, a stream that [stream] returns is
    one of the candidates of the episode, may be used externally and is
    working; it is kept in [_stream]. *)
Theorem stream_returns_working_candidate {L : Type}
    (wait : L -> list (Race.task (option nat))
            -> list (Race.task (option nat)) * list (Race.task (option nat)) * L)
    (clock : L -> nat) (registry : list StreamClass) (host_of : string -> option string)
    (net : string -> Stream.remote) (s s' : L) (e e' : Episode.t) (l : list Stream.t)
    (sels : list (Race.selection (option nat))) (w : nat) :
  Race.wait_spec wait ->
  Episode._stream e = None ->
  (Episode.streams registry host_of net e).1 = Ok l ->
  Episode.stream registry host_of net wait clock s e = Some (Ok (Some w), sels, s', e') ->
  Episode._stream e' = Some (Some w)
  /\ exists x, x ∈ l /\ Stream.sid x = w
               /\ Stream.external (Stream.site x) = Ok true
               /\ (Stream.working x).1 = Ok true.
Proof.
  intros Hwait Hslot Hl Hrun.
  destruct (Episode.streams registry host_of net e) as [r e1] eqn:Hstreams.
  simpl in Hl. subst r. rewrite (stream_first_read _ _ _ _ _ _ _ _ _ Hslot Hstreams) in Hrun.
  destruct (Episode.race_groups _ _ _ _) as [[[[w0|x] sels0] s0]|] eqn:Hrace;
    simplify_eq/=. split; [done|].
  destruct (race_groups_winner_is_candidate wait clock Hwait _ _ _ _ _ Hrace)
    as (x & Hx & Hpass).
  apply (proj1 (sorted_groups_hold l x)) in Hx. exists x.
  apply (proj1 (working_external_self_spec x w)) in Hpass as (Hsid & Hext & Hw).
  subst w. by split_and!.
Qed.

Lemma stream_returns_working_candidate_witness :
  exists x, x ∈ [Examples.candidate 0 10 1 ["http://cdn.example/a.mp4"];
                 Examples.candidate 1 10 4 ["http://cdn.example/b.mp4"]]
            /\ Stream.sid x = 0%nat
            /\ Stream.external (Stream.site x) = Ok true
            /\ (Stream.working x).1 = Ok true.
Proof.
  destruct (Episode.stream [] Examples.nowhere Examples.offline Race.asyncio_wait id 0%nat
              Examples.raced) as [[[[answer sels] s'] e']|] eqn:Hrun;
    vm_compute in Hrun; [|discriminate].
  injection Hrun as Hanswer Hsels Hs' He'.
  apply (proj2 (stream_returns_working_candidate Race.asyncio_wait id [] Examples.nowhere
                  Examples.offline 0%nat s' Examples.raced e' _ sels 0%nat
                  asyncio_wait_ok eq_refl eq_refl
                  ltac:(rewrite <- Hsels, <- Hs', <- He'; vm_compute; reflexivity))).
Defined.

(** X9: when no candidate passes the validation, [stream] returns nothing
    and keeps that answer in [_stream]: a later read returns nothing again
    without validating any candidate. *)
Theorem stream_keeps_absence {L : Type}
    (wait : L -> list (Race.task (option nat))
            -> list (Race.task (option nat)) * list (Race.task (option nat)) * L)
    (clock : L -> nat) (registry : list StreamClass) (host_of : string -> option string)
    (net : string -> Stream.remote) (s : L) (e : Episode.t) (l : list Stream.t) :
  Race.wait_spec wait ->
  Episode._stream e = None ->
  (Episode.streams registry host_of net e).1 = Ok l ->
  (forall x, x ∈ l -> (Stream.working_external_self x).1 = Ok None) ->
  exists sels s' e',
    Episode.stream registry host_of net wait clock s e = Some (Ok None, sels, s', e')
    /\ Episode._stream e' = Some None
    /\ forall s2, Episode.stream registry host_of net wait clock s2 e'
                  = Some (Ok None, [], s2, e').
Proof.
  intros Hwait Hslot Hl Hfail.
  destruct (Episode.streams registry host_of net e) as [r e1] eqn:Hstreams.
  simpl in Hl. subst r. rewrite (stream_first_read _ _ _ _ _ _ _ _ _ Hslot Hstreams).
  destruct (race_groups_all_fail wait clock Hwait
              (groupby Stream.PRIORITY Z.eqb (sort_desc Stream.PRIORITY Z.ltb l)) s)
    as (sels & s' & Hrace).
  { intros x Hx. by apply Hfail, sorted_groups_hold. }
  rewrite Hrace. eexists _, _, _. split_and!; [done..|].
  intros s2. done.
Qed.

Lemma stream_keeps_absence_witness :
  exists sels s' e',
    Episode.stream [] Examples.nowhere Examples.offline Race.asyncio_wait id 0%nat
      (Examples.episode_with [Examples.candidate 0 10 1 []; Examples.candidate 1 5 2 []])
    = Some (Ok None, sels, s', e')
    /\ Episode._stream e' = Some None.
Proof.
  destruct (stream_keeps_absence Race.asyncio_wait id [] Examples.nowhere Examples.offline
              0%nat
              (Examples.episode_with
                 [Examples.candidate 0 10 1 []; Examples.candidate 1 5 2 []])
              [Examples.candidate 0 10 1 []; Examples.candidate 1 5 2 []]
              asyncio_wait_ok eq_refl eq_refl)
    as (sels & s' & e' & Hrun & Hslot & _).
  - intros x Hx. apply elem_of_cons in Hx as [->|Hx]; [reflexivity|].
    apply elem_of_cons in Hx as [->|Hx]; [reflexivity|]. by apply elem_of_nil in Hx.
  - by exists sels, s', e'.
Defined.

Lemma validation_never_raises (x : Stream.t) :
  (exists b, Stream.external (Stream.site x) = Ok b) ->
  (forall err, (Stream.links x).1 = Raise err ->
     err = CancelledError \/ is_Exception err = true) ->
  exists r, (Stream.working_external_self x).1 = Ok r.
Proof.
  intros [b Hb] Hlinks. unfold Stream.working_external_self. rewrite Hb.
  destruct b; [|by eexists].
  assert (Hw : exists w, (Stream.working x).1 = Ok w).
  { unfold Stream.working, cached_property.
    destruct (Stream._working x) as [w|]; [by eexists|].
    destruct (Stream.links x) as [[ls|err] x'] eqn:Hl; simpl; [by eexists|].
    destruct (Hlinks err) as [->|Herr]; [by rewrite ?Hl|simpl; by eexists|].
    destruct err; simpl in *; try done; by eexists. }
  destruct Hw as [w Hw]. destruct (Stream.working x) as [[[]|err] x']; simpl in *;
    try done; by eexists.
Qed.

(** X10: a provider whose extraction of the links fails does not abort the
    selection: when [external] of every candidate answers and every error
    of an extraction is an [Exception] or a cancellation, [stream] returns
    (a stream or nothing) and raises nothing. *)
Theorem stream_survives_failed_extractions {L : Type}
    (wait : L -> list (Race.task (option nat))
            -> list (Race.task (option nat)) * list (Race.task (option nat)) * L)
    (clock : L -> nat) (registry : list StreamClass) (host_of : string -> option string)
    (net : string -> Stream.remote) (s : L) (e : Episode.t) (l : list Stream.t) :
  Race.wait_spec wait ->
  (Episode.streams registry host_of net e).1 = Ok l ->
  (forall x, x ∈ l ->
     (exists b, Stream.external (Stream.site x) = Ok b)
     /\ forall err, (Stream.links x).1 = Raise err ->
          err = CancelledError \/ is_Exception err = true) ->
  exists answer sels s' e',
    Episode.stream registry host_of net wait clock s e = Some (Ok answer, sels, s', e').
Proof.
  intros Hwait Hl Hok.
  destruct (Episode._stream e) as [w|] eqn:Hslot.
  { unfold Episode.stream. rewrite Hslot. by eexists _, _, _, _. }
  destruct (Episode.streams registry host_of net e) as [r e1] eqn:Hstreams.
  simpl in Hl. subst r. rewrite (stream_first_read _ _ _ _ _ _ _ _ _ Hslot Hstreams).
  destruct (race_groups_never_raises wait clock Hwait
              (groupby Stream.PRIORITY Z.eqb (sort_desc Stream.PRIORITY Z.ltb l)) s)
    as (answer & sels & s' & Hrace).
  { intros x Hx. apply (proj1 (sorted_groups_hold l x)) in Hx.
    destruct (Hok x Hx) as [Hext Herr].
    by apply validation_never_raises. }
  rewrite Hrace. by eexists _, _, _, _.
Qed.

Lemma stream_survives_failed_extractions_witness :
  exists answer sels s' e',
    Episode.stream [] Examples.nowhere Examples.offline Race.asyncio_wait id 0%nat
      (Examples.episode_with
         [Examples.flaky; Examples.candidate 1 5 1 ["http://cdn.example/c.mp4"]])
    = Some (Ok answer, sels, s', e').
Proof.
  apply (stream_survives_failed_extractions Race.asyncio_wait id [] Examples.nowhere
           Examples.offline 0%nat
           (Examples.episode_with
              [Examples.flaky; Examples.candidate 1 5 1 ["http://cdn.example/c.mp4"]])
           [Examples.flaky; Examples.candidate 1 5 1 ["http://cdn.example/c.mp4"]]
           asyncio_wait_ok eq_refl).
  intros x Hx. apply elem_of_cons in Hx as [->|Hx].
  - split; [by exists true|]. intros err Herr. vm_compute in Herr.
    injection Herr as <-. by right.
  - apply elem_of_cons in Hx as [->|Hx]; [|by apply elem_of_nil in Hx].
    split; [by exists true|]. intros err Herr. vm_compute in Herr. discriminate.
Defined.

Lemma groupby_uniform {A : Type} (key : A -> Z) (l : list A) :
  Forall (fun kg => Forall (fun z => key z = kg.1) kg.2) (groupby key Z.eqb l).
Proof.
  induction l as [|x l IH]; simpl; [constructor|].
  destruct (groupby key Z.eqb l) as [|[k g] gs]; [by repeat constructor|].
  apply Forall_cons in IH as [Hg Hgs].
  destruct (key x =? k) eqn:Hk.
  - apply Z.eqb_eq in Hk. constructor; [|done]. by constructor.
  - constructor; [by repeat constructor|]. by constructor.
Qed.

Section one_at_a_time.
Context {L : Type}.
Variable wait : L -> list (Race.task (option nat))
                -> list (Race.task (option nat)) * list (Race.task (option nat)) * L.
Variable clock : L -> nat.
Hypothesis wait_ok : Race.wait_spec wait.
Hypothesis wait_one : one_done_at_a_time wait.

Lemma group_without_winner_all_fail (s : L) (g : list Stream.t) sel s' :
  Race.get_first wait Episode.found_one s (Episode.validation (clock s) <$> g)
    = Some (sel, s') ->
  Race.value sel = Ok None ->
  forall y, y ∈ g -> (Stream.working_external_self y).1 = Ok None.
Proof.
  intros Hrun Hv y Hy.
  pose proof (get_first_loop_unread_none wait Episode.found_one wait_ok _ _ _ _ _
                wait_one Hrun) as Hun.
  destruct (get_first_loop_nothing wait Episode.found_one wait_ok _ _ _ _ _ Hrun Hv)
    as (Hout & _ & Hall).
  pose proof (get_first_loop_accounts wait Episode.found_one wait_ok _ _ _ _ _ Hrun) as Hacc.
  rewrite Hun, Hout, !app_nil_r in Hacc.
  destruct (Hall (Episode.validation (clock s) y)) as (v & s0 & Hv' & Hp).
  { rewrite Hacc. by apply list_elem_of_fmap_2. }
  simpl in Hv'. rewrite Hv'. by destruct v.
Qed.

Lemma race_groups_first_passing_group (groups : list (Z * list Stream.t)) :
  forall s answer sels s',
    Episode.race_groups wait clock s groups = Some (Ok answer, sels, s') ->
    match answer with
    | Some w =>
      exists pre p g post x,
        groups = pre ++ (p, g) :: post /\ x ∈ g
        /\ (Stream.working_external_self x).1 = Ok (Some w)
        /\ forall y, y ∈ concat (snd <$> pre) ->
             (Stream.working_external_self y).1 = Ok None
    | None =>
      forall y, y ∈ concat (snd <$> groups) ->
        (Stream.working_external_self y).1 = Ok None
    end.
Proof.
  induction groups as [|[p g] rest IH]; intros s answer sels s' Hrun; simpl in Hrun.
  { simplify_eq. intros y Hy. by apply elem_of_nil in Hy. }
  destruct (Race.get_first wait Episode.found_one s (map (Episode.validation (clock s)) g))
    as [[sel s1]|] eqn:Hrace; [|done].
  destruct (Race.value sel) as [[[w0|]|]|e] eqn:Hv.
  - simplify_eq.
    destruct (get_first_loop_winner wait Episode.found_one wait_ok _ _ _ _ _ _ Hrace Hv)
      as [(t & s0 & Hin & _ & Ht & _) _].
    apply list_elem_of_fmap in Hin as (x & -> & Hx).
    exists [], p, g, rest, x. split_and!; [done..|].
    intros y Hy. by apply elem_of_nil in Hy.
  - destruct (get_first_loop_winner wait Episode.found_one wait_ok _ _ _ _ _ _ Hrace Hv)
      as [(t & s0 & _ & _ & _ & Hp) _]. done.
  - pose proof (group_without_winner_all_fail s g sel s1 Hrace Hv) as Hfail.
    destruct (Episode.race_groups wait clock s1 rest) as [[[r sels0] s2]|] eqn:Hrec;
      simplify_eq/=.
    specialize (IH _ _ _ _ Hrec). destruct answer as [w|].
    + destruct IH as (pre & p' & g' & post & x & -> & Hx & Hpass & Hpre).
      exists ((p, g) :: pre), p', g', post, x. split_and!; [done..|].
      intros y Hy. simpl in Hy. apply elem_of_app in Hy as [Hy|Hy]; [by apply Hfail|].
      by apply Hpre.
    + intros y Hy. apply elem_of_app in Hy as [Hy|Hy]; [by apply Hfail|by apply IH].
  - by simplify_eq.
Qed.
End one_at_a_time.

(** X11: in an event loop that hands back one completed computation per
    call of [asyncio.wait], [stream] keeps the priority order: a stream it
    returns passed the validation and no candidate that passes has a higher
    priority; and it returns nothing only when no candidate passes. *)
Theorem stream_prefers_priority_one_at_a_time {L : Type}
    (wait : L -> list (Race.task (option nat))
            -> list (Race.task (option nat)) * list (Race.task (option nat)) * L)
    (clock : L -> nat) (registry : list StreamClass) (host_of : string -> option string)
    (net : string -> Stream.remote) (s s' : L) (e e' : Episode.t) (l : list Stream.t)
    (sels : list (Race.selection (option nat))) (answer : option nat) :
  Race.wait_spec wait -> one_done_at_a_time wait ->
  Episode._stream e = None ->
  (Episode.streams registry host_of net e).1 = Ok l ->
  Episode.stream registry host_of net wait clock s e = Some (Ok answer, sels, s', e') ->
  match answer with
  | Some w =>
    exists x, x ∈ l /\ Stream.sid x = w
              /\ (Stream.working_external_self x).1 = Ok (Some w)
              /\ forall y v, y ∈ l -> (Stream.working_external_self y).1 = Ok (Some v) ->
                   Stream.PRIORITY y <= Stream.PRIORITY x
  | None => forall y, y ∈ l -> (Stream.working_external_self y).1 = Ok None
  end.
Proof.
  intros Hwait Hone Hslot Hl Hrun.
  destruct (Episode.streams registry host_of net e) as [r e1] eqn:Hstreams.
  simpl in Hl. subst r. rewrite (stream_first_read _ _ _ _ _ _ _ _ _ Hslot Hstreams) in Hrun.
  destruct (Episode.race_groups _ _ _ _) as [[[[w0|x] sels0] s0]|] eqn:Hrace;
    simplify_eq.
  pose proof (race_groups_first_passing_group wait clock Hwait Hone _ _ _ _ _ Hrace) as Hg.
  destruct answer as [w|].
  - destruct Hg as (pre & p & g & post & x & Hgroups & Hx & Hpass & Hpre).
    pose proof (groupby_concat Stream.PRIORITY Z.eqb (sort_desc Stream.PRIORITY Z.ltb l))
      as Hcat.
    rewrite Hgroups, fmap_app, concat_app in Hcat. simpl in Hcat.
    pose proof (sort_desc_priority_sorted l) as Hsorted. rewrite <- Hcat in Hsorted.
    pose proof (groupby_uniform Stream.PRIORITY (sort_desc Stream.PRIORITY Z.ltb l)) as Huni.
    rewrite Hgroups in Huni. apply Forall_app in Huni as [_ Huni].
    apply Forall_cons in Huni as [Huni _]. simpl in Huni.
    rewrite Forall_forall in Huni.
    exists x. split_and!; [| |done|].
    + rewrite <- (sort_desc_perm Stream.PRIORITY Z.ltb l), <- Hcat.
      apply elem_of_app. right. apply elem_of_app. by left.
    + symmetry. by apply working_external_self_is_self.
    + intros y v Hy Hv. rewrite <- (sort_desc_perm Stream.PRIORITY Z.ltb l), <- Hcat in Hy. apply elem_of_app in Hy as [Hy|Hy].
      { rewrite (Hpre y Hy) in Hv. done. }
      apply elem_of_app in Hy as [Hy|Hy].
      * rewrite (Huni y Hy), (Huni x Hx). lia.
      * apply StronglySorted_app_1_r in Hsorted.
        by apply (StronglySorted_app_1_elem_of _ _ _ x y Hsorted).
  - intros y Hy. apply Hg. by apply sorted_groups_hold.
Qed.

Lemma stream_prefers_priority_one_at_a_time_witness :
  exists x, x ∈ [Examples.candidate 0 10 1 [];
                 Examples.candidate 1 10 1 ["http://cdn.example/b.mp4"];
                 Examples.candidate 2 5 1 ["http://cdn.example/c.mp4"]]
            /\ Stream.sid x = 1%nat
            /\ (Stream.working_external_self x).1 = Ok (Some 1%nat)
            /\ forall y v,
                 y ∈ [Examples.candidate 0 10 1 [];
                      Examples.candidate 1 10 1 ["http://cdn.example/b.mp4"];
                      Examples.candidate 2 5 1 ["http://cdn.example/c.mp4"]] ->
                 (Stream.working_external_self y).1 = Ok (Some v) ->
                 Stream.PRIORITY y <= Stream.PRIORITY x.
Proof.
  destruct (Episode.stream [] Examples.nowhere Examples.offline sequential_wait id 0%nat
              Examples.contested) as [[[[answer sels] s'] e']|] eqn:Hrun;
    vm_compute in Hrun; [|discriminate].
  injection Hrun as Hanswer Hsels Hs' He'.
  apply (stream_prefers_priority_one_at_a_time sequential_wait id [] Examples.nowhere
           Examples.offline 0%nat s' Examples.contested e' _ sels (Some 1%nat)
           sequential_wait_ok sequential_wait_one eq_refl eq_refl).
  rewrite <- Hsels, <- Hs', <- He'. vm_compute. reflexivity.
Defined.

(** ** Anime *)

Lemma anime_get_range (a : Anime.t) (n index : Z) :
  (Anime.episode_count a).1 = Ok n ->
  match Anime._episodes a with
  | Some cache => forall i, is_Some (cache !! i) -> 0 <= i < n
  | None => exists eps, Anime.get_episodes a = Ok eps /\ Z.of_nat (length eps) = n
  end ->
  (forall i, 0 <= i < n -> exists ep, Anime.get_episode a i = Ok ep) ->
  ((Anime.get index a).1 = Raise (EpisodeNotFound index n) <-> ~ (0 <= index < n))
  /\ (0 <= index < n -> exists ep, (Anime.get index a).1 = Ok ep).
Proof.
  intros Hcount Hshape Hmk.
  destruct (episodes_dense a n Hcount Hshape Hmk) as (m & Hm & Hcount' & Hdense).
  destruct (Anime._episodes a ≫= (fun m : gmap Z Episode.t => m !! index))
    as [ep|] eqn:Hhit.
  - assert (Hin : 0 <= index < n).
    { destruct (Anime._episodes a) as [cache|]; [|done]. simpl in Hhit.
      apply Hshape. by eexists. }
    assert (Hget : (Anime.get index a).1 = Ok ep).
    { unfold Anime.get. by rewrite Hhit. }
    rewrite Hget. split; [split; [done|by intros []]|]. intros _. by exists ep.
  - rewrite (anime_get_after_episodes a index Hhit m Hm), Hcount'.
    destruct (m !! index) as [ep|] eqn:Hi.
    + assert (Hin : 0 <= index < n) by (apply Hdense; by eexists).
      split; [split; [done|by intros []]|]. intros _. by exists ep.
    + assert (Hout : ~ (0 <= index < n)).
      { intros Hin. apply Hdense in Hin as [ep Hep]. congruence. }
      split; [by split|]. by intros ?.
Qed.


(** X12: on a show that reports [n] episodes (nothing cached beyond the
    count, and the episodes below it can be constructed), [get] raises
    [EpisodeNotFound] with the index and the count exactly for the indices
    outside [0, n), negative ones included, and returns an episode for
    every index inside. *)
Theorem anime_get_raises_exactly_outside_range (a : Anime.t) (n index : Z) :
  (Anime.episode_count a).1 = Ok n ->
  match Anime._episodes a with
  | Some cache => forall i, is_Some (cache !! i) -> 0 <= i < n
  | None => exists eps, Anime.get_episodes a = Ok eps /\ Z.of_nat (length eps) = n
  end ->
  (forall i, 0 <= i < n -> exists ep, Anime.get_episode a i = Ok ep) ->
  ((Anime.get index a).1 = Raise (EpisodeNotFound index n) <-> ~ (0 <= index < n))
  /\ (0 <= index < n -> exists ep, (Anime.get index a).1 = Ok ep).
Proof. apply anime_get_range. Qed.

Lemma anime_get_raises_exactly_outside_range_witness :
  (Anime.get (-1) (Examples.show 2 None None)).1 = Raise (EpisodeNotFound (-1) 2)
  <-> ~ (0 <= -1 < 2).
Proof.
  apply (anime_get_raises_exactly_outside_range (Examples.show 2 None None) 2 (-1)).
  - reflexivity.
  - exists (Examples.listing 2). split; reflexivity.
  - intros i _. eexists. reflexivity.
Defined.







(** ** search_anime *)

Section search_more.
Variable int : string -> option Z.
Variable get_lang : string -> option Query.Language.
Variable fuzzy_bool : string -> option bool.
Variable search : string -> Query.Language -> bool -> list Query.SearchResult.
Variable preload_attrs : Anime.t -> result unit.
Variable args : gmap string string.

Local Ltac past_conversions c q :=
  destruct (Query._get_int_param int args "results" (Some 1)) as [n|e]; simpl; [|done];
  let Hr := fresh "Hr" in
  destruct ((0 <? n) && (n <=? 20)) eqn:Hr; simpl; [|done];
  destruct (gather _) as [u|e]; simpl; [|done]; intros [= <-];
  apply andb_true_iff in Hr as [H0 H20]; apply Z.ltb_lt in H0; apply Z.leb_le in H20;
  exists c, q, n; rewrite take_take, Nat.min_id; split_and!; try done; lia.

(** What a successful call went through. *)
Lemma search_anime_ok_inv (results : list Query.SearchResult) :
  Query.search_anime int get_lang fuzzy_bool search preload_attrs args = Ok results ->
  exists c q n,
    args !! "uid" = None /\ args !! "anime" = Some (String c q)
    /\ Query._get_int_param int args "results" (Some 1) = Ok n /\ 1 <= n <= 20
    /\ results
       = take (Z.to_nat n)
           (sort_desc Query.certainty Query.Qltb
              (take (Z.to_nat (Z.max n 3))
                 (search (String c q)
                    (default Query.ENGLISH (args !! "language" ≫= get_lang))
                    (default false (args !! "dubbed" ≫= fuzzy_bool))))).
Proof.
  unfold Query.search_anime, Query.build, Query.try_build_UID, Query.try_build_Query,
    Query.optional.
  destruct (args !! "uid") as [u|]; simpl; [done|].
  destruct (args !! "anime") as [[|c q]|] eqn:Hanime; simpl.
  - destruct (match args !! "language" with Some v => Some <$> get_lang v | None => Some None end)
      as [lang|]; [|done].
    destruct (match args !! "dubbed" with Some v => Some <$> fuzzy_bool v | None => Some None end)
      as [dub|]; done.
  - destruct (args !! "language") as [v|]; simpl.
    + destruct (get_lang v) as [lang|]; simpl; [|done].
      destruct (args !! "dubbed") as [d|]; simpl.
      * destruct (fuzzy_bool d) as [dub|]; simpl; [|done].
        past_conversions c q.
      * past_conversions c q.
    + destruct (args !! "dubbed") as [d|]; simpl.
      * destruct (fuzzy_bool d) as [dub|]; simpl; [|done].
        past_conversions c q.
      * past_conversions c q.
  - done.
Qed.
End search_more.

(** X14: a request that carries a [uid] cannot be searched, whatever else
    it holds: [search_anime] raises [InvalidRequest]; and a search that
    succeeds came without [uid] and with a non-empty [anime]. *)
Theorem search_anime_needs_title_not_uid (int : string -> option Z)
    (get_lang : string -> option Query.Language) (fuzzy_bool : string -> option bool)
    (search : string -> Query.Language -> bool -> list Query.SearchResult)
    (preload_attrs : Anime.t -> result unit) (args : gmap string string) :
  (forall u, args !! "uid" = Some u ->
     Query.search_anime int get_lang fuzzy_bool search preload_attrs args
     = Raise (InvalidRequest "Can't search using a UID"))
  /\ (forall results,
        Query.search_anime int get_lang fuzzy_bool search preload_attrs args = Ok results ->
        args !! "uid" = None /\ exists c q, args !! "anime" = Some (String c q)).
Proof.
  split.
  - intros u Hu. unfold Query.search_anime, Query.build, Query.try_build_UID.
    by rewrite Hu.
  - intros results Hres.
    destruct (search_anime_ok_inv _ _ _ _ _ _ _ Hres) as (c & q & n & Huid & Hanime & _).
    split; [done|]. by exists c, q.
Qed.

Lemma search_anime_needs_title_not_uid_witness :
  Query.search_anime Query.decimal Examples.no_language Examples.no_bool
    Examples.found_three Examples.preloaded
    (<["uid" := "gogoanime-onepiece-en"]> Examples.two_results)
  = Raise (InvalidRequest "Can't search using a UID").
Proof.
  apply (proj1 (search_anime_needs_title_not_uid Query.decimal Examples.no_language
                  Examples.no_bool Examples.found_three Examples.preloaded
                  (<["uid" := "gogoanime-onepiece-en"]> Examples.two_results))
           "gogoanime-onepiece-en").
  reflexivity.
Defined.

(** X15: the results of [search_anime] are the best of the first
    [max(n, 3)] results the sources yield, [n] being the requested number:
    the pool splits into the results and a rest none of which has a higher
    certainty than any result, and there are [n] results unless the sources
    yield fewer. What the sources yield after the first [max(n, 3)] results
    is not considered. *)
Theorem search_anime_returns_best_of_first_results (int : string -> option Z)
    (get_lang : string -> option Query.Language) (fuzzy_bool : string -> option bool)
    (search : string -> Query.Language -> bool -> list Query.SearchResult)
    (preload_attrs : Anime.t -> result unit) (args : gmap string string)
    (results : list Query.SearchResult) :
  Query.search_anime int get_lang fuzzy_bool search preload_attrs args = Ok results ->
  exists query n rest,
    args !! "anime" = Some query
    /\ Query._get_int_param int args "results" (Some 1) = Ok n
    /\ let found := search query (default Query.ENGLISH (args !! "language" ≫= get_lang))
                           (default false (args !! "dubbed" ≫= fuzzy_bool)) in
       results ++ rest ≡ₚ take (Z.to_nat (Z.max n 3)) found
       /\ (forall r p, r ∈ results -> p ∈ rest ->
             (Query.certainty p <= Query.certainty r)%Q)
       /\ length results = Nat.min (Z.to_nat n) (length found).
Proof.
  intros Hres.
  destruct (search_anime_ok_inv _ _ _ _ _ _ _ Hres)
    as (c & q & n & _ & Hanime & Hn & Hrange & ->).
  exists (String c q), n. cbv zeta.
  set (found := search (String c q) _ _).
  set (sorted := sort_desc Query.certainty Query.Qltb (take (Z.to_nat (Z.max n 3)) found)).
  exists (drop (Z.to_nat n) sorted). split_and!; [done..| | |].
  - rewrite take_drop. apply sort_desc_perm.
  - intros r p Hr Hp.
    pose proof (sort_desc_certainty_sorted (take (Z.to_nat (Z.max n 3)) found)) as Hsorted.
    fold sorted in Hsorted. rewrite <- (take_drop (Z.to_nat n) sorted) in Hsorted.
    by apply (StronglySorted_app_1_elem_of _ _ _ r p Hsorted).
  - rewrite length_take. unfold sorted.
    rewrite (Permutation_length (sort_desc_perm _ _ _)), length_take. lia.
Qed.

Lemma search_anime_returns_best_of_first_results_witness :
  exists query n rest,
    Examples.two_results !! "anime" = Some query
    /\ Query._get_int_param Query.decimal Examples.two_results "results" (Some 1) = Ok n
    /\ [Examples.hit (93 # 100); Examples.hit (71 # 100)] ++ rest
       ≡ₚ take (Z.to_nat (Z.max n 3)) (Examples.found_three query Query.ENGLISH false).
Proof.
  destruct (search_anime_returns_best_of_first_results Query.decimal Examples.no_language
              Examples.no_bool Examples.found_three Examples.preloaded Examples.two_results
              [Examples.hit (93 # 100); Examples.hit (71 # 100)])
    as (query & n & rest & Hq & Hn & Hperm & _); [vm_compute; reflexivity|].
  by exists query, n, rest.
Defined.

(** ** Episode.sources and the resolution of a request *)

Lemma gather_raises {A : Type} (rs : list (result A)) (r : result A) (e : exn) :
  r ∈ rs -> r = Raise e -> exists e', gather rs = Raise e'.
Proof.
  intros Hin ->. induction rs as [|r rs IH]; [by apply elem_of_nil in Hin|].
  simpl. destruct r as [x|e0]; simpl; [|by eexists].
  apply elem_of_cons in Hin as [?|Hin]; [done|].
  destruct (IH Hin) as [e' ->]. by eexists.
Qed.

(** X16: [sources] is the concatenation of the links of the candidates, in
    the order of the candidates, and is kept once computed; but when the
    extraction of one candidate fails, [sources] fails as a whole (unlike
    [working], it catches nothing) and keeps nothing, so the next read
    starts over. *)
Theorem sources_concatenates_or_fails (registry : list StreamClass)
    (host_of : string -> option string) (net : string -> Stream.remote)
    (e : Episode.t) (l : list Stream.t) :
  (Episode.streams registry host_of net e).1 = Ok l ->
  (forall srcs,
     (EpisodeSources.sources registry host_of net (e, None)).1 = Ok srcs ->
     (EpisodeSources.sources registry host_of net (e, None)).2.2 = Some srcs
     /\ exists per_stream,
          Forall2 (fun x ls => (Stream.links x).1 = Ok ls) l per_stream
          /\ srcs = concat per_stream)
  /\ (forall x err, x ∈ l -> (Stream.links x).1 = Raise err ->
        (exists err', (EpisodeSources.sources registry host_of net (e, None)).1 = Raise err')
        /\ (EpisodeSources.sources registry host_of net (e, None)).2.2 = None).
Proof.
  intros Hl. unfold EpisodeSources.sources, cached_property, EpisodeSources.sources_body.
  simpl. destruct (Episode.streams registry host_of net e) as [r e1]. simpl in Hl. subst r.
  destruct (gather ((Stream.links <$> l).*1)) as [per_stream|err0] eqn:Hg; simpl; split.
  - intros srcs [= <-]. split; [done|]. exists per_stream. split; [|done].
    apply gather_Ok in Hg. rewrite <- list_fmap_compose in Hg.
    clear -Hg. revert per_stream Hg. induction l as [|x l IH]; intros [|ls lls] Hg;
      simplify_eq/=; constructor; [done|by apply IH].
  - intros x err Hx Herr.
    destruct (gather_raises ((Stream.links <$> l).*1) (Stream.links x).1 err) as [e' He'];
      [|done|congruence].
    rewrite <- list_fmap_compose. by apply (list_elem_of_fmap_2 (fst ∘ Stream.links)).
  - done.
  - intros x err Hx Herr. split; [by eexists|done].
Qed.

Lemma sources_concatenates_or_fails_witness :
  (EpisodeSources.sources [] Examples.nowhere Examples.offline (Examples.raced, None)).1
  = Ok ["http://cdn.example/a.mp4"; "http://cdn.example/b.mp4"]
  /\ (exists err',
        (EpisodeSources.sources [] Examples.nowhere Examples.offline
           (Examples.episode_with
              [Examples.candidate 0 10 1 ["http://cdn.example/a.mp4"]; Examples.flaky],
            None)).1 = Raise err').
Proof.
  split; [reflexivity|].
  apply (proj2 (sources_concatenates_or_fails [] Examples.nowhere Examples.offline
                  (Examples.episode_with
                     [Examples.candidate 0 10 1 ["http://cdn.example/a.mp4"]; Examples.flaky])
                  [Examples.candidate 0 10 1 ["http://cdn.example/a.mp4"]; Examples.flaky]
                  eq_refl)
           Examples.flaky (OtherException "ClientConnectionError")).
  - apply list_elem_of_further, list_elem_of_here.
  - reflexivity.
Defined.

Section resolve_facts.
Variable int : string -> option Z.
Variable get_lang : string -> option Query.Language.
Variable fuzzy_bool : string -> option bool.
Variable sources_get_anime : string -> option Anime.t.
Variable sources_get_anime_by_title
  : string -> option bool -> option Query.Language -> option Anime.t.
Variable registry : list StreamClass.
Variable host_of : string -> option string.
Variable net : string -> Stream.remote.
Variable sources_slot : Episode.t -> option (list string).
Variable args : gmap string string.

Local Abbreviation get_episode :=
  (Resolve.get_episode int get_lang fuzzy_bool sources_get_anime
     sources_get_anime_by_title args).


End resolve_facts.



(** X18: [get_source] on an episode raises [SourceNotFound] exactly when
    the index is outside [0, len(sources)), and returns the source at that
    position otherwise. *)
Theorem get_source_raises_outside_range (int : string -> option Z)
    (get_lang : string -> option Query.Language) (fuzzy_bool : string -> option bool)
    (sources_get_anime : string -> option Anime.t)
    (sources_get_anime_by_title
       : string -> option bool -> option Query.Language -> option Anime.t)
    (registry : list StreamClass) (host_of : string -> option string)
    (net : string -> Stream.remote) (sources_slot : Episode.t -> option (list string))
    (args kwargs : gmap string string) (e : Episode.t) (srcs : list string) (i : Z) :
  (EpisodeSources.sources registry host_of net (e, sources_slot e)).1 = Ok srcs ->
  ((Resolve.get_source int get_lang fuzzy_bool sources_get_anime sources_get_anime_by_title
      registry host_of net sources_slot args (Some i) (Some e) kwargs).1
   = Raise (OtherException "SourceNotFound")
   <-> ~ (0 <= i < Z.of_nat (length srcs)))
  /\ (0 <= i < Z.of_nat (length srcs) ->
      exists src,
        srcs !! Z.to_nat i = Some src
        /\ (Resolve.get_source int get_lang fuzzy_bool sources_get_anime
              sources_get_anime_by_title registry host_of net sources_slot args
              (Some i) (Some e) kwargs).1 = Ok src).
Proof.
  intros Hsrcs. unfold Resolve.get_source.
  destruct (EpisodeSources.sources registry host_of net (e, sources_slot e)) as [r st].
  simpl in Hsrcs. subst r.
  destruct (decide (0 <= i < Z.of_nat (length srcs))) as [Hin|Hout].
  - replace ((0 <=? i) && (i <? Z.of_nat (length srcs))) with true
      by (symmetry; apply andb_true_iff; split; [apply Z.leb_le|apply Z.ltb_lt]; lia).
    simpl negb. cbv iota.
    destruct (lookup_lt_is_Some_2 srcs (Z.to_nat i)) as [src Hsrc]; [lia|]. rewrite Hsrc.
    simpl. split; [split; [done|by intros []]|]. intros _. by exists src.
  - replace ((0 <=? i) && (i <? Z.of_nat (length srcs))) with false.
    + simpl. split; [done|]. by intros ?.
    + symmetry. apply andb_false_iff.
      destruct (decide (0 <= i)); [right; apply Z.ltb_ge|left; apply Z.leb_gt]; lia.
Qed.

Lemma get_source_raises_outside_range_witness :
  (Resolve.get_source Query.decimal Examples.no_language Examples.no_bool
     MoreExamples.known_uid MoreExamples.no_title [] Examples.nowhere Examples.offline
     MoreExamples.no_slot ∅ (Some 2) (Some Examples.raced) ∅).1
  = Raise (OtherException "SourceNotFound")
  <-> ~ (0 <= 2 < Z.of_nat (length ["http://cdn.example/a.mp4"; "http://cdn.example/b.mp4"])).
Proof.
  apply (get_source_raises_outside_range Query.decimal Examples.no_language Examples.no_bool
           MoreExamples.known_uid MoreExamples.no_title [] Examples.nowhere Examples.offline
           MoreExamples.no_slot ∅ ∅ Examples.raced).
  reflexivity.
Defined.

(** X19: the index a lookup needs is read from the request before anything
    is resolved: when the parameter is absent or no integer, [get_episode],
    [get_stream] and [get_source] raise [InvalidRequest], whatever show or
    episode the request names, and leave a given object untouched. *)
Theorem missing_index_refused_before_resolution (int : string -> option Z)
    (get_lang : string -> option Query.Language) (fuzzy_bool : string -> option bool)
    (sources_get_anime : string -> option Anime.t)
    (sources_get_anime_by_title
       : string -> option bool -> option Query.Language -> option Anime.t)
    (registry : list StreamClass) (host_of : string -> option string)
    (net : string -> Stream.remote) (sources_slot : Episode.t -> option (list string))
    (args kwargs : gmap string string) (anime : option Anime.t)
    (episode : option Episode.t) :
  ((args !! "episode" ≫= int) = None ->
   Resolve.get_episode int get_lang fuzzy_bool sources_get_anime sources_get_anime_by_title
     args None anime kwargs
   = (Raise (InvalidRequest "please specify episode!"), anime))
  /\ ((args !! "stream" ≫= int) = None ->
      Resolve.get_stream int get_lang fuzzy_bool sources_get_anime
        sources_get_anime_by_title registry host_of net args None episode kwargs
      = (Raise (InvalidRequest "please specify stream!"), episode))
  /\ ((args !! "source" ≫= int) = None ->
      Resolve.get_source int get_lang fuzzy_bool sources_get_anime
        sources_get_anime_by_title registry host_of net sources_slot args None episode kwargs
      = (Raise (InvalidRequest "please specify source!"), episode)).
Proof.
  unfold Resolve.get_episode, Resolve.get_stream, Resolve.get_source,
    Resolve.get_episode_index, Query._get_int_param.
  split_and!; intros ->; reflexivity.
Qed.

Lemma missing_index_refused_before_resolution_witness :
  Resolve.get_episode Query.decimal Examples.no_language Examples.no_bool
    MoreExamples.known_uid MoreExamples.no_title (MoreExamples.episode_request "two")
    None None ∅
  = (Raise (InvalidRequest "please specify episode!"), None).
Proof.
  apply (proj1 (missing_index_refused_before_resolution Query.decimal Examples.no_language
                  Examples.no_bool MoreExamples.known_uid MoreExamples.no_title []
                  Examples.nowhere Examples.offline MoreExamples.no_slot
                  (MoreExamples.episode_request "two") ∅ None None)).
  reflexivity.
Defined.

(** ** The Vidstreaming provider *)

Lemma strip_prefix_spec (p s r : string) :
  Vidstreaming.strip_prefix p s = Some r <-> s = p +:+ r.
Proof.
  revert s. induction p as [|a p IH]; intros s.
  - change ("" +:+ r) with r. destruct s; simpl; split; congruence.
  - change (String a p +:+ r) with (String a (p +:+ r)).
    destruct s as [|b s]; simpl; [split; congruence|].
    destruct (Ascii.eqb a b) eqn:Hab.
    + apply Ascii.eqb_eq in Hab as ->. rewrite IH. split; congruence.
    + apply Ascii.eqb_neq in Hab. split; congruence.
Qed.

Lemma until_end_unfold (s : string) :
  Vidstreaming.until_end s
  = match Vidstreaming.strip_prefix Vidstreaming.setup_end s with
    | Some _ => Some EmptyString
    | None =>
      match s with
      | EmptyString => None
      | String c s' => String c <$> Vidstreaming.until_end s'
      end
    end.
Proof. by destruct s. Qed.

Lemma until_end_sound (s g : string) :
  Vidstreaming.until_end s = Some g ->
  exists post, s = g +:+ Vidstreaming.setup_end +:+ post.
Proof.
  revert g. induction s as [|c s IH]; intros g; rewrite until_end_unfold.
  - done.
  - destruct (Vidstreaming.strip_prefix Vidstreaming.setup_end (String c s)) as [r|] eqn:Hp.
    + intros [= <-]. exists r. by apply strip_prefix_spec in Hp.
    + destruct (Vidstreaming.until_end s) as [g'|]; [|done].
      intros [= <-]. destruct (IH g' eq_refl) as [post ->]. by exists post.
Qed.

Lemma until_end_complete (g post : string) :
  is_Some (Vidstreaming.until_end (g +:+ Vidstreaming.setup_end +:+ post)).
Proof.
  induction g as [|c g IH]; rewrite until_end_unfold.
  - by eexists.
  - change (String c g +:+ Vidstreaming.setup_end +:+ post)
      with (String c (g +:+ Vidstreaming.setup_end +:+ post)).
    destruct (Vidstreaming.strip_prefix Vidstreaming.setup_end _); [by eexists|].
    destruct IH as [g' ->]. by eexists.
Qed.

Lemma until_end_shortest (s g g1 post1 : string) :
  Vidstreaming.until_end s = Some g ->
  s = g1 +:+ Vidstreaming.setup_end +:+ post1 ->
  (String.length g <= String.length g1)%nat.
Proof.
  revert g g1. induction s as [|c s IH]; intros g g1; rewrite until_end_unfold; [done|].
  destruct (Vidstreaming.strip_prefix Vidstreaming.setup_end (String c s)) as [r|] eqn:Hp.
  - intros [= <-] _. simpl. lia.
  - destruct (Vidstreaming.until_end s) as [g'|]; [|done].
    intros [= <-] Hs. destruct g1 as [|c1 g1].
    + assert (Hsome : Vidstreaming.strip_prefix Vidstreaming.setup_end (String c s)
                      = Some post1) by by apply strip_prefix_spec.
      congruence.
    + injection Hs as _ Hs. specialize (IH g' g1 eq_refl Hs). simpl. lia.
Qed.

Lemma group_spec (s : string) :
  match Vidstreaming.group s with
  | Some g =>
    g <> "" /\ (exists post, s = g +:+ Vidstreaming.setup_end +:+ post)
    /\ forall g1 post1, g1 <> "" -> s = g1 +:+ Vidstreaming.setup_end +:+ post1 ->
         (String.length g <= String.length g1)%nat
  | None => forall g1 post1, g1 <> "" -> s <> g1 +:+ Vidstreaming.setup_end +:+ post1
  end.
Proof.
  destruct s as [|c s]; simpl.
  { intros g1 post1 Hg1. by destruct g1. }
  destruct (Vidstreaming.until_end s) as [g|] eqn:Hg; simpl.
  - split_and!; [done| |].
    + destruct (until_end_sound s g Hg) as [post ->]. by exists post.
    + intros [|c1 g1] post1 Hne Hs; [done|]. injection Hs as _ Hs.
      pose proof (until_end_shortest s g g1 post1 Hg Hs). simpl. lia.
  - intros [|c1 g1] post1 Hne Hs; [done|]. injection Hs as _ Hs.
    pose proof (until_end_complete g1 post1) as [g Hsome]. congruence.
Qed.

Lemma search_unfold (text : string) :
  Vidstreaming.search text
  = match (match Vidstreaming.strip_prefix Vidstreaming.setup_call text with
           | Some rest => Vidstreaming.group rest
           | None => None
           end) with
    | Some g => Some g
    | None =>
      match text with
      | EmptyString => None
      | String _ text' => Vidstreaming.search text'
      end
    end.
Proof. by destruct text. Qed.

Lemma search_sound (text g : string) :
  Vidstreaming.search text = Some g ->
  exists pre post,
    g <> ""
    /\ text = pre +:+ Vidstreaming.setup_call +:+ g +:+ Vidstreaming.setup_end +:+ post
    /\ forall g1 post1, g1 <> "" ->
         g +:+ Vidstreaming.setup_end +:+ post = g1 +:+ Vidstreaming.setup_end +:+ post1 ->
         (String.length g <= String.length g1)%nat.
Proof.
  induction text as [|c text IH]; rewrite search_unfold.
  - done.
  - destruct (Vidstreaming.strip_prefix Vidstreaming.setup_call (String c text))
      as [rest|] eqn:Hp.
    + pose proof (group_spec rest) as Hg. apply strip_prefix_spec in Hp.
      destruct (Vidstreaming.group rest) as [g0|].
      * intros [= <-]. destruct Hg as (Hne & [post Hrest] & Hshort).
        exists "", post. split_and!; [done| |].
        -- simpl. by rewrite Hp, Hrest.
        -- intros g1 post1 Hg1 Heq. apply (Hshort g1 post1 Hg1). by rewrite Hrest.
      * intros Hrec. destruct (IH Hrec) as (pre & post & Hne & -> & Hshort).
        by exists (String c pre), post.
    + intros Hrec. destruct (IH Hrec) as (pre & post & Hne & -> & Hshort).
      by exists (String c pre), post.
Qed.

Lemma search_complete (pre g post : string) :
  g <> "" ->
  is_Some (Vidstreaming.search
             (pre +:+ Vidstreaming.setup_call +:+ g +:+ Vidstreaming.setup_end +:+ post)).
Proof.
  intros Hne. induction pre as [|c pre IH]; rewrite search_unfold.
  - change ("" +:+ Vidstreaming.setup_call +:+ g +:+ Vidstreaming.setup_end +:+ post)
      with (Vidstreaming.setup_call +:+ g +:+ Vidstreaming.setup_end +:+ post).
    rewrite (proj2 (strip_prefix_spec Vidstreaming.setup_call _
                      (g +:+ Vidstreaming.setup_end +:+ post)) eq_refl).
    pose proof (group_spec (g +:+ Vidstreaming.setup_end +:+ post)) as Hg.
    destruct (Vidstreaming.group _) as [g0|]; [by eexists|].
    by destruct (Hg g post Hne).
  - destruct (match Vidstreaming.strip_prefix Vidstreaming.setup_call _ with
              | Some rest => Vidstreaming.group rest
              | None => None
              end); [by eexists|].
    exact IH.
Qed.

(** X20: [extract_player_data] finds the argument of the first call
    [playerInstance.setup(...);] that has a non-empty argument: when the
    text holds no such call the result is the empty dict and nothing is
    parsed; otherwise the text is parsed that stands between a
    "playerInstance.setup(" and the ");" after it, and it is the shortest
    non-empty text that ");" follows there. *)
Theorem extract_player_data_takes_setup_argument
    (parse_js_json : string -> result Vidstreaming.json) (text : string) :
  ((forall pre g post, g <> "" ->
      text <> pre +:+ Vidstreaming.setup_call +:+ g +:+ Vidstreaming.setup_end +:+ post) ->
   Vidstreaming.extract_player_data parse_js_json text = Ok (Vidstreaming.JDict []))
  /\ (forall pre0 g0 post0, g0 <> "" ->
        text = pre0 +:+ Vidstreaming.setup_call +:+ g0 +:+ Vidstreaming.setup_end +:+ post0 ->
        exists pre g post,
          g <> ""
          /\ text = pre +:+ Vidstreaming.setup_call +:+ g +:+ Vidstreaming.setup_end +:+ post
          /\ Vidstreaming.extract_player_data parse_js_json text = parse_js_json g
          /\ forall g1 post1, g1 <> "" ->
               g +:+ Vidstreaming.setup_end +:+ post
               = g1 +:+ Vidstreaming.setup_end +:+ post1 ->
               (String.length g <= String.length g1)%nat).
Proof.
  unfold Vidstreaming.extract_player_data. split.
  - intros Hnone. destruct (Vidstreaming.search text) as [g|] eqn:Hs; [|done].
    destruct (search_sound text g Hs) as (pre & post & Hne & Htext & _).
    by destruct (Hnone pre g post Hne).
  - intros pre0 g0 post0 Hne0 Htext.
    destruct (search_complete pre0 g0 post0 Hne0) as [g Hs]. rewrite <- Htext in Hs.
    rewrite Hs. destruct (search_sound text g Hs) as (pre & post & Hne & Hdec & Hshort).
    by exists pre, g, post.
Qed.

Lemma extract_player_data_takes_setup_argument_witness :
  exists pre g post,
    g <> ""
    /\ MoreExamples.page
       = pre +:+ Vidstreaming.setup_call +:+ g +:+ Vidstreaming.setup_end +:+ post
    /\ Vidstreaming.extract_player_data MoreExamples.parse_nothing MoreExamples.page
       = MoreExamples.parse_nothing g.
Proof.
  destruct (proj2 (extract_player_data_takes_setup_argument MoreExamples.parse_nothing
                     MoreExamples.page)
              "<script>" "{sources:[]}" "</script>")
    as (pre & g & post & Hne & Hdec & Hrun & _); [discriminate|reflexivity|].
  by exists pre, g, post.
Defined.

(** X21: a Vidstreaming stream on a page without a player set-up is not
    working: its player data is the empty dict, its links are the empty
    list without any request for a file, [working] is false and
    [working_external_self] gives nothing. *)
Theorem vidstreaming_without_setup_is_not_working
    (parse_js_json : string -> result Vidstreaming.json)
    (get_successful_links : list Vidstreaming.json -> result (list string))
    (sid : nat) (link text : string) (ticks : nat) :
  (forall pre g post, g <> "" ->
     text <> pre +:+ Vidstreaming.setup_call +:+ g +:+ Vidstreaming.setup_end +:+ post) ->
  Vidstreaming.links get_successful_links
    (Vidstreaming.player_data parse_js_json (Ok text)) = Ok []
  /\ (Stream.working
        (Vidstreaming.stream_on parse_js_json get_successful_links sid link (Ok text) ticks)).1
     = Ok false
  /\ (Stream.working_external_self
        (Vidstreaming.stream_on parse_js_json get_successful_links sid link (Ok text) ticks)).1
     = Ok None.
Proof.
  intros Hnone.
  assert (Hlinks : Vidstreaming.links get_successful_links
                     (Vidstreaming.player_data parse_js_json (Ok text)) = Ok []).
  { unfold Vidstreaming.links, Vidstreaming.player_data, Vidstreaming.extract_player_data.
    simpl. destruct (Vidstreaming.search text) as [g|] eqn:Hs; [|done].
    destruct (search_sound text g Hs) as (pre & post & Hne & Htext & _).
    by destruct (Hnone pre g post Hne). }
  split; [done|].
  assert (Hw : (Stream.working
                  (Vidstreaming.stream_on parse_js_json get_successful_links sid link
                     (Ok text) ticks)).1 = Ok false).
  { unfold Stream.working, Stream.links, cached_property, Vidstreaming.stream_on.
    cbn [Stream._working Stream._links Stream.site Stream.fetch_links Stream.fetches].
    by rewrite Hlinks. }
  split; [done|].
  unfold Stream.working_external_self.
  cbn [Vidstreaming.stream_on Stream.site Stream.external].
  fold (Vidstreaming.stream_on parse_js_json get_successful_links sid link (Ok text) ticks).
  destruct (Stream.working _) as [[[]|e] s']; simpl in *; congruence.
Qed.

Lemma vidstreaming_without_setup_is_not_working_witness :
  (Stream.working
     (Vidstreaming.stream_on MoreExamples.parse_nothing MoreExamples.no_links 0
        "http://vidstreaming.io/e1" (Ok "") 1)).1 = Ok false.
Proof.
  apply (vidstreaming_without_setup_is_not_working MoreExamples.parse_nothing
           MoreExamples.no_links 0 "http://vidstreaming.io/e1" "" 1).
  intros pre g post Hne Htext. destruct pre; discriminate.
Defined.

(** ** Order among equal priorities *)

Section stable.
Context {A : Type}.
Variable key : A -> Z.

Lemma insert_desc_class (k : Z) (x : A) (l : list A) :
  List.filter (fun y => key y =? k) (insert_desc key Z.ltb x l)
  = List.filter (fun y => key y =? k) (x :: l).
Proof.
  induction l as [|y l IH]; [done|]. cbn [insert_desc].
  destruct (key x <? key y) eqn:Hxy; [|done].
  apply Z.ltb_lt in Hxy. cbn [List.filter] in *. rewrite IH.
  destruct (key x =? k) eqn:Hx; [|done]. apply Z.eqb_eq in Hx.
  replace (key y =? k) with false by (symmetry; apply Z.eqb_neq; lia). done.
Qed.

Lemma sort_desc_class (k : Z) (l : list A) :
  List.filter (fun y => key y =? k) (sort_desc key Z.ltb l)
  = List.filter (fun y => key y =? k) l.
Proof.
  induction l as [|x l IH]; [done|]. cbn [sort_desc foldr].
  fold (sort_desc key Z.ltb l). rewrite insert_desc_class. cbn [List.filter].
  by rewrite IH.
Qed.
End stable.

(** X22: the sort of [streams] is stable: the candidates of one priority
    stand in the order of their raw embeds. *)
Theorem streams_keeps_embed_order_within_priority (registry : list StreamClass)
    (host_of : string -> option string) (net : string -> Stream.remote)
    (e : Episode.t) (links : list string) (l : list Stream.t) (p : Z) :
  Episode._streams e = None ->
  Episode.raw_streams e = Ok links ->
  (Episode.streams registry host_of net e).1 = Ok l ->
  List.filter (fun x => Stream.PRIORITY x =? p) l
  = List.filter (fun x => Stream.PRIORITY x =? p)
      (omap id (imap (fun i link => new_stream i link (net link)
                        <$> Episode.first_claiming host_of registry link) links)).
Proof.
  intros Hslot Hraw Hl.
  assert (Hbody : Episode.streams_body registry host_of net e = Ok l).
  { revert Hl. unfold Episode.streams, cached_property. rewrite Hslot.
    by destruct (Episode.streams_body registry host_of net e). }
  rewrite (streams_body_candidates registry host_of net e links l Hraw Hbody).
  apply sort_desc_class.
Qed.

Lemma streams_keeps_embed_order_within_priority_witness :
  List.filter (fun x => Stream.PRIORITY x =? 100)
    [new_stream 0 "http://vidstreaming.io/e1" Examples.answers_at_last Examples.Vidstreaming;
     new_stream 2 "http://www.vidstreaming.io/e2" Examples.answers_at_last
       Examples.Vidstreaming;
     new_stream 1 "http://mirror.example/a" Examples.answers_at_last MoreExamples.Mirror]
  = List.filter (fun x => Stream.PRIORITY x =? 100)
      (omap id (imap (fun i link => new_stream i link Examples.answers_at_last
                        <$> Episode.first_claiming Examples.url_host
                              [Examples.Vidstreaming; MoreExamples.Mirror] link)
                  ["http://vidstreaming.io/e1"; "http://mirror.example/a";
                   "http://www.vidstreaming.io/e2"])).
Proof.
  apply (streams_keeps_embed_order_within_priority
           [Examples.Vidstreaming; MoreExamples.Mirror] Examples.url_host Examples.offline
           (Episode.Make "http://site.example/show/3"
              (Ok ["http://vidstreaming.io/e1"; "http://mirror.example/a";
                   "http://www.vidstreaming.io/e2"]) None None false));
    reflexivity.
Defined.

(** ** Groups of lower priority are not examined *)

Lemma NoDup_fmap_eq {A B : Type} (f : A -> B) (l : list A) (x y : A) :
  NoDup (f <$> l) -> x ∈ l -> y ∈ l -> f x = f y -> x = y.
Proof.
  induction l as [|z l IH]; intros Hnd Hx Hy Hf; [by apply elem_of_nil in Hx|].
  rewrite fmap_cons in Hnd. apply NoDup_cons in Hnd as [Hz Hnd].
  apply elem_of_cons in Hx as [->|Hx]; apply elem_of_cons in Hy as [->|Hy]; [done| | |by apply IH].
  - destruct Hz. rewrite Hf. by apply list_elem_of_fmap_2.
  - destruct Hz. rewrite <- Hf. by apply list_elem_of_fmap_2.
Qed.

Section started.
Context {L : Type}.
Variable wait : L -> list (Race.task (option nat))
                -> list (Race.task (option nat)) * list (Race.task (option nat)) * L.
Variable clock : L -> nat.
Hypothesis wait_ok : Race.wait_spec wait.

Lemma race_groups_started (groups : list (Z * list Stream.t)) :
  forall s sels s' (w : nat),
    Episode.race_groups wait clock s groups = Some (Ok (Some w), sels, s') ->
    exists pre p g post x,
      groups = pre ++ (p, g) :: post /\ x ∈ g /\ Stream.sid x = w
      /\ forall sel t, sel ∈ sels -> t ∈ Race.examined sel ++ Race.unread sel ->
           exists y, y ∈ concat (snd <$> pre) ++ g /\ Race.tid t = Stream.sid y.
Proof.
  induction groups as [|[p g] rest IH]; intros s sels s' w Hrun; simpl in Hrun;
    [by simplify_eq|].
  destruct (Race.get_first wait Episode.found_one s (map (Episode.validation (clock s)) g))
    as [[sel s1]|] eqn:Hrace; [|done].
  pose proof (get_first_loop_accounts wait Episode.found_one wait_ok _ _ _ _ _ Hrace) as Hacc.
  assert (Hfrom : forall t, t ∈ Race.examined sel ++ Race.unread sel ->
                    exists y, y ∈ g /\ Race.tid t = Stream.sid y).
  { intros t Ht.
    assert (Hin : t ∈ map (Episode.validation (clock s)) g).
    { rewrite <- Hacc, (assoc_L (++)). apply elem_of_app. by left. }
    apply list_elem_of_fmap in Hin as (y & -> & Hy). by exists y. }
  destruct (Race.value sel) as [[[w0|]|]|e] eqn:Hv.
  - simplify_eq.
    destruct (get_first_loop_winner wait Episode.found_one wait_ok _ _ _ _ _ _ Hrace Hv)
      as [(t & s0 & Hin & _ & Ht & _) _].
    apply list_elem_of_fmap in Hin as (x & -> & Hx). simpl in Ht.
    exists [], p, g, rest, x. split_and!; [done..|by symmetry; apply working_external_self_is_self|].
    intros sel0 t ->%list_elem_of_singleton Ht0. by apply Hfrom.
  - destruct (get_first_loop_winner wait Episode.found_one wait_ok _ _ _ _ _ _ Hrace Hv)
      as [(t & s0 & _ & _ & _ & Hp) _]. done.
  - destruct (Episode.race_groups wait clock s1 rest) as [[[r sels0] s2]|] eqn:Hrec;
      simplify_eq/=.
    destruct (IH _ _ _ _ Hrec) as (pre & p' & g' & post & x & -> & Hx & Hsid & Hsels).
    exists ((p, g) :: pre), p', g', post, x. split_and!; [done..|].
    intros sel0 t [->|Hsel]%elem_of_cons Ht.
    + destruct (Hfrom t Ht) as (y & Hy & Htid). exists y. split; [|done].
      simpl. rewrite <- (assoc_L (++)). apply elem_of_app. by left.
    + destruct (Hsels sel0 t Hsel Ht) as (y & Hy & Htid). exists y. split; [|done].
      simpl. rewrite <- (assoc_L (++)). apply elem_of_app. by right.
  - by simplify_eq.
Qed.
End started.

(** X23: once a group yields a stream, the groups of lower priority are
    not examined: every candidate whose priority is below that of the
    returned stream is left exactly as it was, no validation ran on it. *)
Theorem stream_leaves_lower_priorities_untouched {L : Type}
    (wait : L -> list (Race.task (option nat))
            -> list (Race.task (option nat)) * list (Race.task (option nat)) * L)
    (clock : L -> nat) (registry : list StreamClass) (host_of : string -> option string)
    (net : string -> Stream.remote) (s s' : L) (e e' : Episode.t) (l : list Stream.t)
    (sels : list (Race.selection (option nat))) (w : nat) :
  Race.wait_spec wait ->
  Episode._stream e = None ->
  (Episode.streams registry host_of net e).1 = Ok l ->
  NoDup (Stream.sid <$> l) ->
  Episode.stream registry host_of net wait clock s e = Some (Ok (Some w), sels, s', e') ->
  exists x l',
    x ∈ l /\ Stream.sid x = w /\ Episode._streams e' = Some l'
    /\ forall y, y ∈ l -> Stream.PRIORITY y < Stream.PRIORITY x -> y ∈ l'.
Proof.
  intros Hwait Hslot Hl Hnd Hrun.
  destruct (Episode.streams registry host_of net e) as [r e1] eqn:Hstreams.
  simpl in Hl. subst r. rewrite (stream_first_read _ _ _ _ _ _ _ _ _ Hslot Hstreams) in Hrun.
  destruct (Episode.race_groups _ _ _ _) as [[[[w0|err] sels0] s0]|] eqn:Hrace;
    simplify_eq.
  destruct (race_groups_started wait clock Hwait _ _ _ _ _ Hrace)
    as (pre & p & g & post & x & Hgroups & Hx & Hsid & Hsels).
  set (sorted := sort_desc Stream.PRIORITY Z.ltb l) in *.
  pose proof (groupby_concat Stream.PRIORITY Z.eqb sorted) as Hcat.
  rewrite Hgroups, fmap_app, concat_app in Hcat. simpl in Hcat.
  pose proof (sort_desc_priority_sorted l) as Hsorted. fold sorted in Hsorted.
  rewrite <- Hcat in Hsorted.
  pose proof (groupby_uniform Stream.PRIORITY sorted) as Huni.
  rewrite Hgroups in Huni. apply Forall_app in Huni as [_ Huni].
  apply Forall_cons in Huni as [Huni _]. simpl in Huni. rewrite Forall_forall in Huni.
  assert (Hperm : sorted ≡ₚ l) by apply sort_desc_perm.
  assert (Hnd' : NoDup (Stream.sid <$> sorted)) by by rewrite Hperm.
  assert (Hxs : x ∈ sorted).
  { rewrite <- Hcat. apply elem_of_app. right. apply elem_of_app. by left. }
  exists x, (Episode.settle sels sorted). split_and!; [by rewrite <- Hperm|done..|].
  intros y Hy Hlow. rewrite <- Hperm in Hy.
  unfold Episode.settle. apply list_elem_of_fmap. exists y. split; [|done].
  rewrite bool_decide_eq_false_2; [done|]. intros Hdone.
  apply list_elem_of_fmap in Hdone as (t & Htid & Ht).
  apply list_elem_of_In, in_concat in Ht as (ts & Hts & Ht).
  apply in_map_iff in Hts as (sel & <- & Hsel).
  destruct (Hsels sel t) as (y' & Hy' & Htid'); [by apply list_elem_of_In..|].
  assert (Hy's : y' ∈ sorted).
  { rewrite <- Hcat. rewrite (assoc_L (++)). apply elem_of_app. by left. }
  assert (y' = y) as -> by (apply (NoDup_fmap_eq Stream.sid sorted); [done..|congruence]).
  apply elem_of_app in Hy' as [Hpre|Hg].
  - pose proof (StronglySorted_app_1_elem_of _ _ _ y x Hsorted Hpre) as Hle.
    assert (Stream.PRIORITY x <= Stream.PRIORITY y); [|lia].
    apply Hle. apply elem_of_app. by left.
  - rewrite (Huni y Hg), (Huni x Hx) in Hlow. lia.
Qed.

Lemma stream_leaves_lower_priorities_untouched_witness :
  exists (x : Stream.t) (l' : list Stream.t),
    x ∈ [Examples.candidate 0 10 1 []; Examples.candidate 1 10 1 ["http://cdn.example/b.mp4"];
         Examples.candidate 2 5 1 ["http://cdn.example/c.mp4"]]
    /\ Stream.sid x = 1%nat
    /\ Examples.candidate 2 5 1 ["http://cdn.example/c.mp4"] ∈ l'.
Proof.
  destruct (Episode.stream [] Examples.nowhere Examples.offline sequential_wait id 0%nat
              Examples.contested) as [[[[answer sels] s'] e']|] eqn:Hrun;
    vm_compute in Hrun; [|discriminate].
  injection Hrun as Hanswer Hsels Hs' He'.
  destruct (stream_leaves_lower_priorities_untouched sequential_wait id [] Examples.nowhere
              Examples.offline 0%nat s' Examples.contested e' _ sels 1%nat
              sequential_wait_ok eq_refl eq_refl)
    as (x & l' & Hx & Hsid & Hl' & Hlow).
  - apply (bool_decide_unpack _). vm_compute. exact I.
  - rewrite <- Hsels, <- Hs', <- He'. vm_compute. reflexivity.
  - exists x, l'. split_and!; [done..|]. apply Hlow.
    + do 2 apply list_elem_of_further. apply list_elem_of_here.
    + apply elem_of_cons in Hx as [->|Hx]; [discriminate|].
      apply elem_of_cons in Hx as [->|Hx]; [reflexivity|].
      apply elem_of_cons in Hx as [->|Hx]; [discriminate|]. by apply elem_of_nil in Hx.
Defined.

(** ** The identity of a show *)

Lemma clean_no_hyphen (text : list N) : Uid.hyphen ∉ Uid.clean text.
Proof.
  intros Hin. apply list_elem_of_In, filter_In in Hin as [_ Hkept]. done.
Qed.

Lemma split_at_first {A : Type} (sep : A) (a a' b b' : list A) :
  sep ∉ a -> sep ∉ a' -> a ++ sep :: b = a' ++ sep :: b' -> a = a' /\ b = b'.
Proof.
  revert a'. induction a as [|x a IH]; intros [|x' a'] Ha Ha' Heq; simpl in Heq.
  - by simplify_eq.
  - injection Heq as -> _. destruct Ha'. apply list_elem_of_here.
  - injection Heq as -> _. destruct Ha. apply list_elem_of_here.
  - injection Heq as -> Heq.
    apply not_elem_of_cons in Ha as [_ Ha]. apply not_elem_of_cons in Ha' as [_ Ha'].
    destruct (IH a' Ha Ha' Heq) as [-> ->]. done.
Qed.

(** X24: the uid keeps of the class name and of the title only lower-case
    ASCII letters, digits and the characters U+4E00..U+9FAF, so the two
    hyphens it puts between its parts are the first two of the uid, and the
    parts can be read back: two uids are equal only if the cleaned class
    names agree, the cleaned titles agree, and the language with the dub
    mark agrees. *)
Theorem uid_parts_read_back (lower : list N -> list N)
    (name1 title1 lang1 name2 title2 lang2 : list N) (dub1 dub2 : bool) :
  Uid.uid lower name1 title1 lang1 dub1 = Uid.uid lower name2 title2 lang2 dub2 ->
  Uid.clean (lower name1) = Uid.clean (lower name2)
  /\ Uid.clean (lower title1) = Uid.clean (lower title2)
  /\ lang1 ++ (if dub1 then Uid.dub_suffix else [])
     = lang2 ++ (if dub2 then Uid.dub_suffix else []).
Proof.
  unfold Uid.uid. intros Heq.
  apply split_at_first in Heq as [Hname Heq]; [|apply clean_no_hyphen..].
  apply split_at_first in Heq as [Htitle Hrest]; [|apply clean_no_hyphen..].
  done.
Qed.

Lemma uid_parts_read_back_witness :
  Uid.clean (MoreExamples.ascii_lower MoreExamples.gogoanime)
  = Uid.clean (MoreExamples.ascii_lower MoreExamples.gogoanime)
  /\ Uid.clean (MoreExamples.ascii_lower MoreExamples.one_piece)
     = Uid.clean (MoreExamples.ascii_lower [111; 110; 101; 112; 105; 101; 99; 101]%N)
  /\ MoreExamples.en ++ Uid.dub_suffix = MoreExamples.en ++ Uid.dub_suffix.
Proof.
  apply (uid_parts_read_back MoreExamples.ascii_lower MoreExamples.gogoanime
           MoreExamples.one_piece MoreExamples.en MoreExamples.gogoanime
           [111; 110; 101; 112; 105; 101; 99; 101]%N MoreExamples.en true true).
  reflexivity.
Defined.
